(** * Planning by dynamic programming on the 4x4 grid world

    A shallow embedding of the notebook [Lecture03.ipynb]: the grid world
    (states, actions, [take_action]), the two policy-evaluation sweeps
    both called [update_values] in the notebook, the convergence loop that
    drives them, and the greedy policy improvement [improved_policy].

    The notebook computes with numpy: the value table is a 4x4 array of
    [float32], scalars are [float64].  The sweeps are therefore written
    once, over an interface [Numeric] of the arithmetic operations the code
    uses, and instantiated twice:
    - [exact]: entries are rationals, every operation is exact (the
      real-valued value table of the data model);
    - [numpy]: entries are IEEE-754 binary32, scalars binary64, every
      operation rounded to nearest-even as numpy does it. *)

From Stdlib Require Import ZArith QArith Qabs Qreduction Qround Zdivisibility.
From Stdlib Require Qcanon.
From Stdlib Require Import List Bool Lia Lqa.
From Stdlib Require Import SpecFloat.
Import ListNotations.

Open Scope Z_scope.

(** ** States and actions *)

(** [class State(int)]: a state is the integer [row * 4 + col]. *)
Definition State (row col : Z) : Z := row * 4 + col.

(** [State.reward] *)
Definition reward (self : Z) : Z :=
  if (self =? 0) || (self =? 15) then 0 else -1.

(** Python's [divmod] on integers: floor division and the modulus with
    the sign of the divisor, as [Z.div] and [Z.modulo]. *)
Definition divmod (a b : Z) : Z * Z := (a / b, a mod b).

(** [State.position] *)
Definition position (self : Z) : Z * Z := divmod self 4.

(** The four [Action] subclasses.  They live in a module so that the
    source's names [N] and [S] do not hide the standard ones. *)
Module Action.
Inductive t : Set := N | S | E | W.

Definition direction (a : t) : Z * Z :=
  match a with
  | N => (-1, 0)
  | S => (1, 0)
  | E => (0, 1)
  | W => (0, -1)
  end.
End Action.

(** [actions = [N(), S(), W(), E()]] *)
Definition actions : list Action.t :=
  [Action.N; Action.S; Action.W; Action.E].

(** [grid_world]: [np.arange(16).reshape(4, 4)], then each number [s]
    rebuilt by [State] from [divmod(s, 4)]. *)
Definition grid_world : list (list Z) :=
  map (fun row =>
         map (fun s => State (fst (divmod s 4)) (snd (divmod s 4))) row)
      [[0; 1; 2; 3]; [4; 5; 6; 7]; [8; 9; 10; 11]; [12; 13; 14; 15]].

Definition is_valid_position (row col : Z) : bool :=
  ((0 <=? row) && (row <? 4)) && ((0 <=? col) && (col <? 4)).

Definition pair_eqb (p q : Z * Z) : bool :=
  (fst p =? fst q) && (snd p =? snd q).

Definition take_action (current_state : Z) (action : Action.t) : Z :=
  let '(row, col) := position current_state in
  if pair_eqb (row, col) (0, 0) || pair_eqb (row, col) (3, 3) then
    current_state
  else
    let dirs := Action.direction action in
    let new_position := (row + fst dirs, col + snd dirs) in
    if is_valid_position (fst new_position) (snd new_position) then
      State (row + fst dirs) (col + snd dirs)
    else
      current_state.

(** A state of the grid, and the two terminal corners. *)
Definition is_state (s : Z) : Prop := 0 <= s < 16.

Definition terminal (s : Z) : bool :=
  pair_eqb (position s) (0, 0) || pair_eqb (position s) (3, 3).

(** The position a move aims at, before any bounds check. *)
Definition candidate (s : Z) (a : Action.t) : Z * Z :=
  (fst (position s) + fst (Action.direction a),
   snd (position s) + snd (Action.direction a)).

(** ** Python containers and failure

    Indexing a Python list or a numpy array outside its bounds raises
    [IndexError]; [None] stands for a raised exception. *)

Definition bind {X Y : Type} (m : option X) (k : X -> option Y) : option Y :=
  match m with
  | Some x => k x
  | None => None
  end.

Notation "x <- m ;; k" := (bind m (fun x => k))
  (at level 61, m at next level, right associativity).

(** [for x in l: body], threading the mutated object through. *)
Fixpoint for_each {X St : Type} (l : list X) (body : St -> X -> option St)
    (st : St) : option St :=
  match l with
  | [] => Some st
  | x :: l' => st' <- body st x ;; for_each l' body st'
  end.

(** A list comprehension whose body may raise. *)
Fixpoint map_opt {X Y : Type} (f : X -> option Y) (l : list X)
    : option (list Y) :=
  match l with
  | [] => Some []
  | x :: l' => y <- f x ;; ys <- map_opt f l' ;; Some (y :: ys)
  end.

(** [range(lo, hi)] *)
Definition range (lo hi : Z) : list Z :=
  map (fun i => lo + Z.of_nat i) (seq 0 (Z.to_nat (hi - lo))).

(** Python index resolution: negative indices count from the end. *)
Definition index (len : nat) (i : Z) : option nat :=
  if (0 <=? i) && (i <? Z.of_nat len) then Some (Z.to_nat i)
  else if (i <? 0) && (- Z.of_nat len <=? i) then Some (Z.to_nat (Z.of_nat len + i))
  else None.

Fixpoint list_set {X : Type} (l : list X) (n : nat) (v : X) : list X :=
  match l, n with
  | [], _ => []
  | _ :: l', O => v :: l'
  | x :: l', Datatypes.S n' => x :: list_set l' n' v
  end.

Section Arrays.
Context {X : Type}.

(** A two-dimensional array, row by row. *)
Definition array := list (list X).

(** [a[row][col]] and [a[row, col]] *)
Definition getitem (a : array) (row col : Z) : option X :=
  i <- index (length a) row ;;
  r <- nth_error a i ;;
  j <- index (length r) col ;;
  nth_error r j.

(** [a[row, col] = v] *)
Definition setitem (a : array) (row col : Z) (v : X) : option array :=
  i <- index (length a) row ;;
  r <- nth_error a i ;;
  j <- index (length r) col ;;
  Some (list_set a i (list_set r j v)).

(** The array has shape (4, 4). *)
Definition shape44 (a : array) : Prop :=
  length a = 4%nat /\ Forall (fun r => length r = 4%nat) a.

(** The entry at a state's position, with a default where the
    index would raise: for statements about 4x4 arrays. *)
Definition at_state (d : X) (a : array) (s : Z) : X :=
  match getitem a (fst (position s)) (snd (position s)) with
  | Some v => v
  | None => d
  end.
End Arrays.
Arguments array : clear implicits.

(** ** The arithmetic of the notebook *)

Record Numeric : Type := {
  elt : Type;                     (* an entry of the value table *)
  scal : Type;                    (* a scalar outside the table *)
  e_zero : elt;                   (* filling of [np.zeros_like] *)
  e_sub : elt -> elt -> elt;      (* [values - old_values], per entry *)
  e_mul : elt -> elt -> elt;      (* [d ** 2] is [d * d], per entry *)
  e_ltb : elt -> elt -> bool;     (* [<] on entries *)
  e_max : elt -> elt -> elt;      (* [np.maximum], reduced by [np.max] *)
  lift : elt -> scal;             (* an entry promoted to a scalar *)
  store : scal -> elt;            (* a scalar assigned into the table *)
  of_int : Z -> scal;             (* a Python [int] in scalar arithmetic *)
  s_add : scal -> scal -> scal;
  s_mul : scal -> scal -> scal;
  s_div : scal -> scal -> scal;
  s_sqrt : scal -> scal;          (* [x ** 0.5] *)
  s_ltb : scal -> scal -> bool;   (* [<] on scalars *)
}.

Section Notebook.
Variable A : Numeric.

Definition table := array (elt A).
Definition policy_grid := array Action.t.

(** [np.zeros_like(a)]: zeros in the shape of [a]. *)
Definition zeros_like {X : Type} (a : array X) : table :=
  map (map (fun _ => e_zero A)) a.

(** [policy_vector = np.ones(4) / 4] *)
Definition policy_vector : list (scal A) :=
  map (fun one => s_div A one (of_int A 4)) (repeat (of_int A 1) 4).

(** [gamma = 1] *)
Definition gamma : Z := 1.

(** [np.max(a)]: raises on an empty array. *)
Definition amax (a : table) : option (elt A) :=
  match concat a with
  | [] => None
  | x :: l => Some (fold_left (e_max A) l x)
  end.

(** [a - b] on arrays of one shape. *)
Definition array_sub (a b : table) : table :=
  map (fun rr => map (fun xy => e_sub A (fst xy) (snd xy))
                     (combine (fst rr) (snd rr)))
      (combine a b).

(** [a ** 2] *)
Definition array_square (a : table) : table :=
  map (map (fun d => e_mul A d d)) a.

(** [err = np.max((values - old_values) ** 2) ** 0.5] *)
Definition max_error (values old_values : table) : option (scal A) :=
  m <- amax (array_square (array_sub values old_values)) ;;
  Some (s_sqrt A (lift A m)).

(** The statement executed once per state and action by the first
    [update_values]:
    [values[row, col] += prob * (s.reward() + gamma * old_value)]. *)
Definition accumulate (old_values : table) (row col : Z) (values : table)
    (ap : Action.t * scal A) : option table :=
  let '(action, prob) := ap in
  let s := State row col in
  let new_state := take_action s action in
  let '(new_row, new_col) := position new_state in
  old_value <- getitem old_values new_row new_col ;;
  cur <- getitem values row col ;;
  setitem values row col
    (store A (s_add A (lift A cur)
       (s_mul A prob
          (s_add A (of_int A (reward s))
                   (s_mul A (of_int A gamma) (lift A old_value)))))).

(** [update_values], first definition: one sweep under the uniform
    random policy. *)
Definition update_values (values : table) : option (table * scal A) :=
  let old_values := values in
  let values := zeros_like values in
  values <-
    for_each (range 0 4) (fun values row =>
      for_each (range 0 4) (fun values col =>
        for_each (combine actions policy_vector)
                 (accumulate old_values row col) values)
        values)
      values ;;
  err <- max_error values old_values ;;
  Some (values, err).

(** The statement executed once per state by the second
    [update_values]:
    [values[row, col] += (s.reward() + gamma * old_value)]. *)
Definition assign (new_policy : policy_grid) (old_values : table)
    (row : Z) (values : table) (col : Z) : option table :=
  action <- getitem new_policy row col ;;
  let s := State row col in
  let new_state := take_action s action in
  let '(new_row, new_col) := position new_state in
  old_value <- getitem old_values new_row new_col ;;
  cur <- getitem values row col ;;
  setitem values row col
    (store A (s_add A (lift A cur)
       (s_add A (of_int A (reward s))
                (s_mul A (of_int A gamma) (lift A old_value))))).

(** [update_values], second definition: one sweep under the
    deterministic policy held in the global [new_policy]. *)
Definition update_values_det (new_policy : policy_grid) (values : table)
    : option (table * scal A) :=
  let old_values := values in
  let values := zeros_like values in
  values <-
    for_each (range 0 4) (fun values row =>
      for_each (range 0 4) (assign new_policy old_values row) values)
      values ;;
  err <- max_error values old_values ;;
  Some (values, err).

(** [max(l, key=key)]: the first item is the running maximum, a later
    item replaces it only when its key is strictly greater. *)
Definition max_by {X : Type} (key : X -> elt A) (l : list X) : option X :=
  match l with
  | [] => None
  | x :: l' =>
      Some (fold_left
              (fun best item =>
                 if e_ltb A (key best) (key item) then item else best)
              l' x)
  end.

(** [improved_policy]; the global [values] it reads is a parameter. *)
Definition improved_policy (values : table) (state_number : Z)
    : option Action.t :=
  q_function <-
    map_opt (fun action =>
               let state := State (fst (divmod state_number 4))
                                  (snd (divmod state_number 4)) in
               let new_state := take_action state action in
               let '(row, col) := position new_state in
               v <- getitem values row col ;;
               Some (action, v))
            actions ;;
  av <- max_by snd q_function ;;
  Some (fst av).

(** [np.vectorize(lambda s: improved_policy(s))(grid_world)] *)
Definition vectorize_improved_policy (values : table)
    : option policy_grid :=
  map_opt (map_opt (improved_policy values)) grid_world.

(** The driver loop of both evaluation cells:
    [for i in range(n_iter): values, err = update_values(values);
     if err < tol: break].
    It yields the table held by [values] afterwards and the number of
    sweeps performed. *)
Fixpoint convergence_loop (update : table -> option (table * scal A))
    (tol : scal A) (n_iter : nat) (values : table) : option (table * nat) :=
  match n_iter with
  | O => Some (values, O)
  | Datatypes.S n =>
      r <- update values ;;
      if s_ltb A (snd r) tol then Some (fst r, 1%nat)
      else
        r' <- convergence_loop update tol n (fst r) ;;
        Some (fst r', Datatypes.S (snd r'))
  end.

(** [n_iter = 100] *)
Definition n_iter : nat := 100.

(** The literals [0.01] and [0.001]. *)
Definition tol_evaluation : scal A := s_div A (of_int A 1) (of_int A 100).
Definition tol_deterministic : scal A := s_div A (of_int A 1) (of_int A 1000).

(** [values = np.zeros_like(grid_world, dtype=np.float32)] *)
Definition initial_values : table := zeros_like grid_world.

(** The first loop cell: evaluation of the uniform random policy. *)
Definition evaluation : option (table * nat) :=
  convergence_loop update_values tol_evaluation n_iter initial_values.

(** The cell that builds [new_policy] from the table left in [values]. *)
Definition new_policy : option policy_grid :=
  r <- evaluation ;; vectorize_improved_policy (fst r).

(** The last loop cell: evaluation of [new_policy]. *)
Definition deterministic_evaluation : option (table * nat) :=
  p <- new_policy ;;
  convergence_loop (update_values_det p) tol_deterministic n_iter
    initial_values.

(** The table after [k] sweeps, and the [err] reported by sweep [k+1]. *)
Fixpoint sweeps (update : table -> option (table * scal A)) (k : nat)
    (values : table) : option table :=
  match k with
  | O => Some values
  | Datatypes.S k' =>
      v <- sweeps update k' values ;;
      r <- update v ;;
      Some (fst r)
  end.

Definition err_after (update : table -> option (table * scal A)) (k : nat)
    (values : table) : option (scal A) :=
  v <- sweeps update k values ;;
  r <- update v ;;
  Some (snd r).

(** The closed form of one entry of a sweep: the accumulation over the
    four actions, started from the zero of [np.zeros_like], reading
    only the old table. *)
Definition bellman_cell (old_values : table) (s : Z) : elt A :=
  fold_left
    (fun acc ap =>
       store A (s_add A (lift A acc)
         (s_mul A (snd ap)
            (s_add A (of_int A (reward s))
               (s_mul A (of_int A gamma)
                  (lift A (at_state (e_zero A) old_values
                                    (take_action s (fst ap)))))))))
    (combine actions policy_vector) (e_zero A).

(** The same for the second [update_values]: the single term added to
    the zeroed entry, for the action the policy grid holds at [s]. *)
Definition greedy_term (new_policy : policy_grid) (old_values : table)
    (s : Z) : scal A :=
  s_add A (of_int A (reward s))
    (s_mul A (of_int A gamma)
       (lift A (at_state (e_zero A) old_values
                  (take_action s (at_state Action.N new_policy s))))).

Definition greedy_cell (new_policy : policy_grid) (old_values : table)
    (s : Z) : elt A :=
  store A (s_add A (lift A (e_zero A)) (greedy_term new_policy old_values s)).

(** [values[row, col] += g(State(row, col))] *)
Definition add_at (g : Z -> scal A) (row : Z) (values : table) (col : Z)
    : option table :=
  cur <- getitem values row col ;;
  setitem values row col
    (store A (s_add A (lift A cur) (g (State row col)))).

(** The 4x4 array holding [f s] at state [s]. *)
Definition tabulate {X : Type} (f : Z -> X) : array X :=
  map (map f) grid_world.
End Notebook.

Arguments zeros_like A {X} a.
Arguments max_by A {X} key l.
Arguments tabulate {X} f.

(** ** Exact arithmetic

    Entries and scalars are rationals kept in lowest terms. *)

Definition Qltb (x y : Q) : bool := negb (Qle_bool y x).

(** The square root, exact on squares of rationals: the only arguments
    [max_error] gives it. *)
Definition Qsqrt (q : Q) : Q :=
  let r := Qred q in Z.sqrt (Qnum r) # Pos.sqrt (Qden r).

Definition exact : Numeric := {|
  elt := Q;
  scal := Q;
  e_zero := 0%Q;
  e_sub := fun x y => Qred (x - y);
  e_mul := fun x y => Qred (x * y);
  e_ltb := Qltb;
  e_max := fun x y => if Qltb x y then y else x;
  lift := fun x => x;
  store := fun x => x;
  of_int := inject_Z;
  s_add := fun x y => Qred (x + y);
  s_mul := fun x y => Qred (x * y);
  s_div := fun x y => Qred (x / y);
  s_sqrt := Qsqrt;
  s_ltb := Qltb;
|}.

(** ** numpy arithmetic

    The table has dtype [float32] and [policy_vector] holds [float64].
    The notebook's kernel is Python 3.6, whose numpy promotes a [float32]
    scalar that meets a Python [int] or a [float64] scalar to [float64]:
    each product and sum of a sweep is a binary64 operation, and its
    result is rounded to binary32 when it is assigned into the table.  The
    array expression of [err] stays in binary32 until [** 0.5], which is
    taken in binary64 as a correctly rounded square root.  Rounding is to
    nearest, ties to even, throughout. *)
Module Float.
Definition prec32 : Z := 24.
Definition emax32 : Z := 128.
Definition prec64 : Z := 53.
Definition emax64 : Z := 1024.

(** Rounding of a floating-point number to another format. *)
Definition convert (prec emax : Z) (x : spec_float) : spec_float :=
  match x with
  | S754_finite s m e => binary_normalize prec emax (cond_Zopp s (Zpos m)) e s
  | _ => x
  end.

Definition is_nan (x : spec_float) : bool :=
  match x with
  | S754_nan => true
  | _ => false
  end.

(** [np.maximum]: a NaN operand is returned. *)
Definition maximum (x y : spec_float) : spec_float :=
  if is_nan x then x
  else if is_nan y then y
  else if SFltb x y then y else x.

Definition finite (x : spec_float) : bool :=
  match x with
  | S754_zero _ | S754_finite _ _ _ => true
  | _ => false
  end.

(** Two floating-point numbers are the same datum. *)
Definition same (x y : spec_float) : bool :=
  match x, y with
  | S754_zero s, S754_zero s' => Bool.eqb s s'
  | S754_infinity s, S754_infinity s' => Bool.eqb s s'
  | S754_nan, S754_nan => true
  | S754_finite s m e, S754_finite s' m' e' =>
      Bool.eqb s s' && Pos.eqb m m' && Z.eqb e e'
  | _, _ => false
  end.

(** The rational a finite floating-point number stands for. *)
Definition to_Q (x : spec_float) : Q :=
  match x with
  | S754_finite s m e =>
      match e with
      | Zneg p => cond_Zopp s (Zpos m) # Pos.pow 2 p
      | _ => inject_Z (cond_Zopp s (Zpos m) * 2 ^ e)
      end
  | _ => 0%Q
  end.
End Float.

Definition numpy : Numeric := {|
  elt := spec_float;
  scal := spec_float;
  e_zero := S754_zero false;
  e_sub := SFsub Float.prec32 Float.emax32;
  e_mul := SFmul Float.prec32 Float.emax32;
  e_ltb := SFltb;
  e_max := Float.maximum;
  lift := Float.convert Float.prec64 Float.emax64;
  store := Float.convert Float.prec32 Float.emax32;
  of_int := fun z => binary_normalize Float.prec64 Float.emax64 z 0 false;
  s_add := SFadd Float.prec64 Float.emax64;
  s_mul := SFmul Float.prec64 Float.emax64;
  s_div := SFdiv Float.prec64 Float.emax64;
  s_sqrt := SFsqrt Float.prec64 Float.emax64;
  s_ltb := SFltb;
|}.

(** The sixteen states in row-major order. *)
Definition all_states : list Z := concat grid_world.

(** The right-hand side of the Bellman expectation equation as the
    specification writes it, over the rationals: the sum over the four
    actions of [policy(a|s) * (reward(s) + gamma * V_old[next(s,a)])]
    with every probability 1/4. *)
Definition bellman_sum (V_old : table exact) (s : Z) : Q :=
  fold_right Qplus 0%Q
    (map (fun a =>
            ((1 # 4) * (inject_Z (reward s)
                        + inject_Z gamma * at_state 0%Q V_old (take_action s a)))%Q)
         actions).

(** The change of one entry over a sweep, in exact arithmetic. *)
Definition change (V_new V_old : table exact) (s : Z) : Q :=
  (at_state 0%Q V_new s - at_state 0%Q V_old s)%Q.

(** The one-step lookahead value [q(s, a) = V[next(s, a)]]. *)
Definition lookahead (A : Numeric) (V : table A) (s : Z) (a : Action.t)
    : elt A :=
  at_state (e_zero A) V (take_action s a).

(** What the driver loop promises about its outcome [(V, k)] when it is
    started on [V0] with the cap [n]: it performs [k <= n] sweeps and [V]
    is the table after them; none of the sweeps before the last reported
    an [err] below the tolerance; and when it stops before the cap, the
    last sweep did. *)
Definition loop_outcome (A : Numeric)
    (update : table A -> option (table A * scal A)) (tol : scal A)
    (n : nat) (V0 V : table A) (k : nat) : Prop :=
  (k <= n)%nat /\
  sweeps A update k V0 = Some V /\
  (forall j, (Datatypes.S j < k)%nat ->
     exists e, err_after A update j V0 = Some e /\ s_ltb A e tol = false) /\
  ((k < n)%nat ->
     exists j e, k = Datatypes.S j /\
                 err_after A update j V0 = Some e /\ s_ltb A e tol = true).

(** A table of integers, as entries of either arithmetic. *)
Definition int_table (A : Numeric) (zs : array Z) : table A :=
  map (map (fun z => store A (of_int A z))) zs.

(** An integer as a table entry. *)
Definition int_entry (A : Numeric) (z : Z) : elt A := store A (of_int A z).

(** A statement about the notebook's run, made in both arithmetics. *)
Definition both (P : Numeric -> Prop) : Prop := P exact /\ P numpy.

(** The state mirrored in the main diagonal of the grid. *)
Definition transpose (s : Z) : Z :=
  State (snd (position s)) (fst (position s)).

(** The action mirrored in the main diagonal. *)
Definition mirror (a : Action.t) : Action.t :=
  match a with
  | Action.N => Action.W
  | Action.W => Action.N
  | Action.S => Action.E
  | Action.E => Action.S
  end.



(** [check] holds of the start table and of the table after each of the
    first [n] sweeps, none of which raises. *)
Fixpoint all_sweeps (A : Numeric)
    (update : table A -> option (table A * scal A))
    (check : table A -> bool) (n : nat) (V : table A) : bool :=
  check V &&
  match n with
  | O => true
  | Datatypes.S n' =>
      match update V with
      | Some r => all_sweeps A update check n' (fst r)
      | None => false
      end
  end.

(** The table the notebook displays after the first loop cell, decimal
    by decimal, in millionths. *)
Definition displayed_values : array Z :=
  [[0; -13895283; -19844830; -21826353];
   [-13895283; -17863304; -19845867; -19844830];
   [-19844830; -19845867; -17863304; -13895284];
   [-21826355; -19844830; -13895285; 0]].

(** The policy the notebook displays for [new_policy]. *)
Definition displayed_policy : policy_grid :=
  [[Action.N; Action.W; Action.W; Action.S];
   [Action.N; Action.N; Action.S; Action.S];
   [Action.N; Action.N; Action.E; Action.S];
   [Action.N; Action.E; Action.E; Action.N]].

(** A decimal with six fractional digits read as a [float32]. *)
Definition of_millionths (d : Z) : spec_float :=
  store numpy (s_div numpy (of_int numpy d) (of_int numpy 1000000)).



(** The number of steps from a state to the nearest terminal corner. *)
Definition steps_to_goal (s : Z) : Z :=
  let '(row, col) := position s in
  Z.min (row + col) ((3 - row) + (3 - col)).

(** The value function of the uniform random policy: the fixed point of
    the first [update_values]. *)
Definition uniform_value_function : array Z :=
  [[0; -14; -20; -22];
   [-14; -18; -20; -20];
   [-20; -20; -18; -14];
   [-22; -20; -14; 0]].

(** A policy that never reaches a terminal state from the top row. *)
Definition all_north : policy_grid := tabulate (fun _ => Action.N).

(** ** Notions for the further properties *)

(** The action that steps back. *)
Definition opposite (a : Action.t) : Action.t :=
  match a with
  | Action.N => Action.S
  | Action.S => Action.N
  | Action.E => Action.W
  | Action.W => Action.E
  end.

(** The state turned by 180 degrees about the centre of the grid. *)
Definition half_turn (s : Z) : Z :=
  State (3 - fst (position s)) (3 - snd (position s)).

(** The state reached from [s] by taking the actions of [l] in turn. *)
Definition walk (s : Z) (l : list Action.t) : Z := fold_left take_action l s.


(** One table lies below another at every state. *)
Definition below (V W : table exact) : Prop :=
  forall s, is_state s -> (at_state 0%Q V s <= at_state 0%Q W s)%Q.

(** In numpy arithmetic: the next uniform sweep does not raise, and at
    every state its finite value is at most the current one, which is at
    most 0, and at least -22. *)
Definition declining (V : table numpy) : bool :=
  match update_values numpy V with
  | Some r =>
      forallb (fun s =>
                 let x := at_state S754_nan V s in
                 let x' := at_state S754_nan (fst r) s in
                 Float.finite x && Float.finite x'
                 && Qle_bool (Float.to_Q x') (Float.to_Q x)
                 && Qle_bool (Float.to_Q x) 0
                 && Qle_bool (- (22 # 1)) (Float.to_Q x'))
              all_states
  | None => false
  end.

(** The array has an entry at each of the sixteen positions of the grid:
    no index [[row, col]] with [0 <= row, col < 4] raises. *)
Definition covers {X : Type} (a : array X) : Prop :=
  forall row col, 0 <= row < 4 -> 0 <= col < 4 -> getitem a row col <> None.


(** The state reached from [s] after [n] moves, each the action the
    policy grid holds at the current state. *)
Fixpoint follow (P : policy_grid) (s : Z) (n : nat) : Z :=
  match n with
  | O => s
  | Datatypes.S n' => follow P (take_action s (at_state Action.N P s)) n'
  end.


(** ** What the loop cells print *)

(** The condition of the [print] statements: [i < 3 or i % 10 == 0]. *)
Definition prints (i : Z) : bool := (i <? 3) || (i mod 10 =? 0).

(** The loop of both evaluation cells with its [print] statements:
    [for i in range(n_iter): values, err = update_values(values);
     if i < 3 or i % 10 == 0: print(i); print(show(values));
     if err < tol: break].
    It yields what is printed, in order: the index [i] with the table
    shown.  [i] is the index of the first of the [n] iterations left. *)
Fixpoint printing_loop (A : Numeric) {X : Type} (show : table A -> X)
    (update : table A -> option (table A * scal A)) (tol : scal A)
    (n : nat) (i : Z) (values : table A) : option (list (Z * X)) :=
  match n with
  | O => Some []
  | Datatypes.S n' =>
      r <- update values ;;
      let out := if prints i then [(i, show (fst r))] else [] in
      if s_ltb A (snd r) tol then Some out
      else
        rest <- printing_loop A show update tol n' (i + 1) (fst r) ;;
        Some (out ++ rest)
  end.

(** Rounding of a rational to the nearest integer, ties to even. *)
Definition round_half_even (q : Q) : Z :=
  let f := Qfloor q in
  match Qcompare (q - inject_Z f) (1 # 2) with
  | Lt => f
  | Gt => f + 1
  | Eq => if Z.even f then f else f + 1
  end.

(** [np.rint] on a [float32]: the nearest integer, ties to even, with the
    sign of the argument. *)
Definition rint (x : spec_float) : spec_float :=
  match x with
  | S754_finite s _ _ =>
      binary_normalize Float.prec32 Float.emax32
        (round_half_even (Float.to_Q x)) 0 s
  | _ => x
  end.

(** [np.round(x, decimals)] on a [float32] array, entry by entry: numpy
    multiplies by [10 ** decimals], applies [rint] and divides again, all
    in [float32]. *)
Definition np_round (decimals : N) (x : spec_float) : spec_float :=
  let f := Float.convert Float.prec32 Float.emax32
             (of_int numpy (10 ^ Z.of_N decimals)) in
  SFdiv Float.prec32 Float.emax32
    (rint (SFmul Float.prec32 Float.emax32 x f)) f.

(** A decimal with one fractional digit read as a [float32]. *)
Definition of_tenths (d : Z) : spec_float :=
  store numpy (s_div numpy (of_int numpy d) (of_int numpy 10)).

(** The output recorded under the first loop cell: each printed index
    with the table printed after it, in tenths. *)
Definition printed_evaluation : list (Z * array Z) :=
  [(0, [[0; -10; -10; -10]; [-10; -10; -10; -10];
        [-10; -10; -10; -10]; [-10; -10; -10; 0]]);
   (1, [[0; -18; -20; -20]; [-18; -20; -20; -20];
        [-20; -20; -20; -18]; [-20; -20; -18; 0]]);
   (2, [[0; -24; -29; -30]; [-24; -29; -30; -29];
        [-29; -30; -29; -24]; [-30; -29; -24; 0]]);
   (10, [[0; -66; -90; -97]; [-66; -83; -90; -90];
         [-90; -90; -83; -66]; [-97; -90; -66; 0]]);
   (20, [[0; -97; -136; -149]; [-97; -124; -137; -136];
         [-136; -137; -124; -97]; [-149; -136; -97; 0]]);
   (30, [[0; -115; -163; -179]; [-115; -147; -163; -163];
         [-163; -163; -147; -115]; [-179; -163; -115; 0]]);
   (40, [[0; -126; -179; -196]; [-126; -161; -179; -179];
         [-179; -179; -161; -126]; [-196; -179; -126; 0]]);
   (50, [[0; -132; -188; -206]; [-132; -169; -188; -188];
         [-188; -188; -169; -132]; [-206; -188; -132; 0]]);
   (60, [[0; -135; -193; -212]; [-135; -174; -193; -193];
         [-193; -193; -174; -135]; [-212; -193; -135; 0]]);
   (70, [[0; -137; -196; -215]; [-137; -176; -196; -196];
         [-196; -196; -176; -137]; [-215; -196; -137; 0]]);
   (80, [[0; -138; -198; -217]; [-138; -178; -198; -198];
         [-198; -198; -178; -138]; [-217; -198; -138; 0]])].

(** The output recorded under the last loop cell. *)
Definition printed_deterministic : list (Z * array Z) :=
  [(0, [[0; -10; -10; -10]; [-10; -10; -10; -10];
        [-10; -10; -10; -10]; [-10; -10; -10; 0]]);
   (1, [[0; -10; -20; -20]; [-10; -20; -20; -20];
        [-20; -20; -20; -10]; [-20; -20; -10; 0]]);
   (2, [[0; -10; -20; -30]; [-10; -20; -30; -20];
        [-20; -30; -20; -10]; [-30; -20; -10; 0]])].

(** The printed tables as [float32] arrays. *)
Definition as_printed (out : list (Z * array Z))
    : list (Z * array spec_float) :=
  map (fun p => (fst p, map (map of_tenths) (snd p))) out.


(** * Properties *)

(** ** The transition function *)

Lemma is_state_cases (s : Z) :
  is_state s ->
  In s [0; 1; 2; 3; 4; 5; 6; 7; 8; 9; 10; 11; 12; 13; 14; 15].
Proof.
  unfold is_state; intros H; simpl.
  assert (s = 0 \/ s = 1 \/ s = 2 \/ s = 3 \/ s = 4 \/ s = 5 \/ s = 6 \/ s = 7
          \/ s = 8 \/ s = 9 \/ s = 10 \/ s = 11 \/ s = 12 \/ s = 13 \/ s = 14
          \/ s = 15) as Hs by lia.
  intuition auto.
Qed.

(** Case analysis over the sixteen states. *)
Ltac each_state s H :=
  let Hin := fresh "Hin" in
  pose proof (is_state_cases s H) as Hin; clear H; simpl in Hin;
  repeat (destruct Hin as [Hin | Hin]; [subst s | ]); [.. | contradiction].

Lemma position_State (row col : Z) :
  0 <= col < 4 -> position (State row col) = (row, col).
Proof.
  intros Hc; unfold position, divmod, State.
  rewrite Z.div_add_l, Z.div_small, Z.add_0_r by lia.
  rewrite Z.add_comm, Z.mod_add, Z.mod_small by lia.
  reflexivity.
Qed.

Lemma State_position (s : Z) :
  State (fst (position s)) (snd (position s)) = s.
Proof.
  unfold State, position, divmod; simpl.
  pose proof (Z.div_mod s 4); lia.
Qed.

(** C2: the two terminal corner states, index 0 at position (0,0) and
    index 15 at position (3,3), are fixed points of [take_action] under
    each of the four actions. *)
Theorem take_action_terminal_fixed_point (a : Action.t) :
  (State 0 0 = 0 /\ position 0 = (0, 0) /\ take_action 0 a = 0) /\
  (State 3 3 = 15 /\ position 15 = (3, 3) /\ take_action 15 a = 15).
Proof.
  destruct a; repeat split.
Qed.

Lemma take_action_is_state (s : Z) (a : Action.t) :
  is_state s -> is_state (take_action s a).
Proof.
  intros H; each_state s H; destruct a; vm_compute; intuition congruence.
Qed.

(** C3 as stated fails at a terminal state: the move south from state 0
    aims at position (1,0), inside the grid, and yet the result is state
    0 and not the state at that position. *)
Lemma take_action_terminal_ignores_candidate :
  ~ (forall s a, is_state s ->
       if is_valid_position (fst (candidate s a)) (snd (candidate s a))
       then take_action s a = State (fst (candidate s a)) (snd (candidate s a))
       else take_action s a = s).
Proof.
  intros H.
  specialize (H 0 Action.S ltac:(unfold is_state; lia)).
  vm_compute in H. discriminate H.
Qed.

(** C3, amended: [take_action] is total on the 16 x 4 inputs and its
    result is one of the sixteen states, at a position inside the grid;
    from a terminal state the result is the state itself, and from a
    non-terminal state it is the state at the candidate position when
    that position is inside the grid and the state itself otherwise. *)
Theorem take_action_total_in_grid (s : Z) (a : Action.t) :
  is_state s ->
  is_state (take_action s a) /\
  is_valid_position (fst (position (take_action s a)))
                    (snd (position (take_action s a))) = true /\
  (terminal s = true -> take_action s a = s) /\
  (terminal s = false ->
     if is_valid_position (fst (candidate s a)) (snd (candidate s a))
     then take_action s a = State (fst (candidate s a)) (snd (candidate s a))
     else take_action s a = s).
Proof.
  intros H.
  each_state s H; destruct a; vm_compute; intuition congruence.
Qed.

Lemma take_action_total_in_grid_witness :
  is_state 7 /\
  is_state (take_action 7 Action.E) /\
  is_valid_position (fst (position (take_action 7 Action.E)))
                    (snd (position (take_action 7 Action.E))) = true /\
  (terminal 7 = true -> take_action 7 Action.E = 7) /\
  (terminal 7 = false ->
     if is_valid_position (fst (candidate 7 Action.E))
                          (snd (candidate 7 Action.E))
     then take_action 7 Action.E
          = State (fst (candidate 7 Action.E)) (snd (candidate 7 Action.E))
     else take_action 7 Action.E = 7).
Proof.
  split.
  - unfold is_state; lia.
  - apply (take_action_total_in_grid 7 Action.E). unfold is_state; lia.
Defined.

(** ** Arrays of shape (4, 4) *)

Lemma length4_inv {X : Type} (r : list X) :
  length r = 4%nat -> exists a b c d, r = [a; b; c; d].
Proof.
  destruct r as [|a [|b [|c [|d [|e r]]]]]; try discriminate.
  intros _; now exists a, b, c, d.
Qed.

Lemma shape44_inv {X : Type} (a : array X) :
  shape44 a ->
  exists r0 r1 r2 r3,
    a = [r0; r1; r2; r3] /\
    length r0 = 4%nat /\ length r1 = 4%nat /\
    length r2 = 4%nat /\ length r3 = 4%nat.
Proof.
  intros [Hlen Hrows].
  destruct (length4_inv a Hlen) as (r0 & r1 & r2 & r3 & ->).
  exists r0, r1, r2, r3.
  repeat match goal with
         | H : Forall _ (_ :: _) |- _ => inversion H; subst; clear H
         end.
  auto.
Qed.

(** Name the sixteen entries of an array of shape (4, 4). *)
Ltac name_entries a H :=
  let r0 := fresh "r" in let r1 := fresh "r" in
  let r2 := fresh "r" in let r3 := fresh "r" in
  let H0 := fresh in let H1 := fresh in let H2 := fresh in let H3 := fresh in
  destruct (shape44_inv a H) as (r0 & r1 & r2 & r3 & -> & H0 & H1 & H2 & H3);
  destruct (length4_inv r0 H0) as (? & ? & ? & ? & ->);
  destruct (length4_inv r1 H1) as (? & ? & ? & ? & ->);
  destruct (length4_inv r2 H2) as (? & ? & ? & ? & ->);
  destruct (length4_inv r3 H3) as (? & ? & ? & ? & ->);
  clear H H0 H1 H2 H3.

Lemma shape44_tabulate {X : Type} (f : Z -> X) : shape44 (tabulate f).
Proof.
  split; [reflexivity | repeat constructor].
Qed.

Lemma getitem_tabulate {X : Type} (f : Z -> X) (s : Z) :
  is_state s ->
  getitem (tabulate f) (fst (position s)) (snd (position s)) = Some (f s).
Proof.
  intros H; each_state s H; reflexivity.
Qed.

Lemma at_state_tabulate {X : Type} (d : X) (f : Z -> X) (s : Z) :
  is_state s -> at_state d (tabulate f) s = f s.
Proof.
  intros H; unfold at_state; now rewrite getitem_tabulate.
Qed.

Lemma tabulate_at_state {X : Type} (d : X) (a : array X) :
  shape44 a -> tabulate (at_state d a) = a.
Proof.
  intros H; name_entries a H; reflexivity.
Qed.

Lemma getitem_at_state {X : Type} (d : X) (a : array X) (s : Z) :
  shape44 a -> is_state s ->
  getitem a (fst (position s)) (snd (position s)) = Some (at_state d a s).
Proof.
  intros Ha Hs.
  rewrite <- (tabulate_at_state d a Ha) at 1.
  now apply getitem_tabulate.
Qed.

Lemma for_each_ext {X St : Type} (l : list X)
    (f g : St -> X -> option St) (st : St) :
  (forall st' x, In x l -> f st' x = g st' x) ->
  for_each l f st = for_each l g st.
Proof.
  revert st; induction l as [|x l IH]; intros st H; simpl; [reflexivity | ].
  rewrite (H st x) by now left.
  destruct (g st x); simpl; [ | reflexivity].
  apply IH; intros; apply H; now right.
Qed.

Lemma in_range_0_4 (x : Z) : In x (range 0 4) -> 0 <= x < 4.
Proof.
  simpl; intuition lia.
Qed.

(** ** The sweeps in closed form

    Whatever the arithmetic, the in-place accumulation of
    [update_values] into the zeroed copy produces, at each state, the
    accumulation over the four actions of terms that read the old table
    only, and no indexing fails. *)

Section ClosedForm.
Variable A : Numeric.

Lemma max_error_defined (V' V : table A) :
  shape44 V' -> shape44 V -> exists err, max_error A V' V = Some err.
Proof.
  intros H' H; name_entries V' H'; name_entries V H.
  eexists; reflexivity.
Qed.

Lemma uniform_loops_closed_form (V : table A) :
  shape44 V ->
  for_each (range 0 4) (fun values row =>
    for_each (range 0 4) (fun values col =>
      for_each (combine actions (policy_vector A))
               (accumulate A V row col) values)
      values)
    (zeros_like A V)
  = Some (tabulate (bellman_cell A V)).
Proof.
  intros H; name_entries V H. vm_compute. reflexivity.
Qed.

Lemma update_values_closed_form (V : table A) :
  shape44 V ->
  exists err,
    max_error A (tabulate (bellman_cell A V)) V = Some err /\
    update_values A V = Some (tabulate (bellman_cell A V), err).
Proof.
  intros H.
  destruct (max_error_defined (tabulate (bellman_cell A V)) V
              (shape44_tabulate _) H) as [err Herr].
  exists err; split; [exact Herr | ].
  unfold update_values; cbv zeta.
  rewrite (uniform_loops_closed_form V H); cbn [bind].
  now rewrite Herr.
Qed.

Lemma add_at_loops (g : Z -> scal A) (V : table A) :
  shape44 V ->
  for_each (range 0 4) (fun values row =>
    for_each (range 0 4) (add_at A g row) values)
    (zeros_like A V)
  = Some (tabulate (fun s => store A (s_add A (lift A (e_zero A)) (g s)))).
Proof.
  intros H; name_entries V H. vm_compute. reflexivity.
Qed.

Lemma assign_add_at (P : policy_grid) (V values : table A) (row col : Z) :
  shape44 P -> shape44 V -> 0 <= row < 4 -> 0 <= col < 4 ->
  assign A P V row values col = add_at A (greedy_term A P V) row values col.
Proof.
  intros HP HV Hr Hc.
  assert (Hs : is_state (State row col)) by (unfold is_state, State; lia).
  unfold assign, add_at.
  pose proof (getitem_at_state Action.N P _ HP Hs) as HgP.
  rewrite position_State in HgP by lia; simpl in HgP.
  rewrite HgP; cbn [bind].
  set (t := take_action _ _).
  assert (Ht : is_state t) by (apply take_action_is_state, Hs).
  pose proof (getitem_at_state (e_zero A) V t HV Ht) as HgV.
  destruct (position t) as [new_row new_col]; simpl in HgV.
  rewrite HgV; cbn [bind]. reflexivity.
Qed.

Lemma deterministic_loops_closed_form (P : policy_grid) (V : table A) :
  shape44 P -> shape44 V ->
  for_each (range 0 4) (fun values row =>
    for_each (range 0 4) (assign A P V row) values)
    (zeros_like A V)
  = Some (tabulate (greedy_cell A P V)).
Proof.
  intros HP HV.
  change (tabulate (greedy_cell A P V))
    with (tabulate (fun s => store A (s_add A (lift A (e_zero A))
                                        (greedy_term A P V s)))).
  rewrite <- (add_at_loops (greedy_term A P V) V HV).
  apply for_each_ext; intros values row Hrow.
  apply for_each_ext; intros values' col Hcol.
  apply assign_add_at; auto using in_range_0_4.
Qed.

Lemma update_values_det_closed_form (P : policy_grid) (V : table A) :
  shape44 P -> shape44 V ->
  exists err,
    max_error A (tabulate (greedy_cell A P V)) V = Some err /\
    update_values_det A P V = Some (tabulate (greedy_cell A P V), err).
Proof.
  intros HP H.
  destruct (max_error_defined (tabulate (greedy_cell A P V)) V
              (shape44_tabulate _) H) as [err Herr].
  exists err; split; [exact Herr | ].
  unfold update_values_det; cbv zeta.
  rewrite (deterministic_loops_closed_form P V HP H); cbn [bind].
  now rewrite Herr.
Qed.
End ClosedForm.

(** ** Exact arithmetic: the square root and the maximum *)

Lemma Qltb_lt (x y : Q) : Qltb x y = true <-> (x < y)%Q.
Proof.
  unfold Qltb. rewrite negb_true_iff, <- not_true_iff_false, Qle_bool_iff.
  split; [apply Qnot_le_lt | apply Qlt_not_le].
Qed.

Lemma Qltb_ge (x y : Q) : Qltb x y = false <-> (y <= x)%Q.
Proof.
  unfold Qltb. now rewrite negb_false_iff, Qle_bool_iff.
Qed.






(** ** The uniform sweep in exact arithmetic *)

Lemma bellman_cell_exact (V : table exact) (s : Z) :
  (bellman_cell exact V s == bellman_sum V s)%Q.
Proof.
  unfold bellman_cell, bellman_sum.
  change (policy_vector exact) with [1 # 4; 1 # 4; 1 # 4; 1 # 4]%Q.
  cbn [actions combine fold_left fold_right map fst snd
       exact store lift s_add s_mul of_int e_zero].
  change (inject_Z gamma) with 1%Q.
  rewrite !Qred_correct.
  change (elt exact) with Q.
  generalize (at_state 0%Q V (take_action s Action.N) : Q)
             (at_state 0%Q V (take_action s Action.S) : Q)
             (at_state 0%Q V (take_action s Action.W) : Q)
             (at_state 0%Q V (take_action s Action.E) : Q).
  intros; ring.
Qed.






(** ** The convergence loop *)

Section Loop.
Variable A : Numeric.
Variable update : table A -> option (table A * scal A).
Variable tol : scal A.

Lemma sweeps_shift (k : nat) (V0 : table A) :
  sweeps A update (Datatypes.S k) V0
  = (r <- update V0 ;; sweeps A update k (fst r)).
Proof.
  induction k as [|k IH].
  - simpl. now destruct (update V0).
  - change (sweeps A update (Datatypes.S (Datatypes.S k)) V0)
      with (v <- sweeps A update (Datatypes.S k) V0 ;;
            r <- update v ;; Some (fst r)).
    rewrite IH. destruct (update V0); reflexivity.
Qed.

Lemma err_after_shift (j : nat) (V0 : table A) :
  err_after A update (Datatypes.S j) V0
  = (r <- update V0 ;; err_after A update j (fst r)).
Proof.
  unfold err_after. rewrite sweeps_shift.
  destruct (update V0); reflexivity.
Qed.

Lemma convergence_loop_outcome (n : nat) (V0 V : table A) (k : nat) :
  convergence_loop A update tol n V0 = Some (V, k) ->
  loop_outcome A update tol n V0 V k.
Proof.
  revert V0 V k; induction n as [|n IH]; intros V0 V k; simpl.
  - intros [= <- <-]. repeat split; auto; intros; lia.
  - destruct (update V0) as [[V1 e1]|] eqn:Hupd; simpl; [ | discriminate].
    destruct (s_ltb A e1 tol) eqn:Hlt.
    + intros [= <- <-]. repeat split.
      * lia.
      * simpl. now rewrite Hupd.
      * intros j Hj; lia.
      * intros _. exists O, e1. unfold err_after; simpl.
        now rewrite Hupd.
    + destruct (convergence_loop A update tol n V1) as [[V' k']|] eqn:Hloop;
        simpl; [ | discriminate].
      intros [= <- <-].
      destruct (IH V1 V' k' Hloop) as (Hle & Hsw & Hbefore & Hstop).
      repeat split.
      * lia.
      * rewrite sweeps_shift, Hupd. exact Hsw.
      * intros [|j] Hj.
        -- exists e1. unfold err_after; simpl. now rewrite Hupd.
        -- rewrite err_after_shift, Hupd. apply Hbefore. lia.
      * intros Hk. destruct Hstop as (j & e & -> & He & Hlt'); [lia | ].
        exists (Datatypes.S j), e. rewrite err_after_shift, Hupd. auto.
Qed.

(** The loop cannot raise when each sweep maps 4x4 tables to 4x4
    tables. *)
Hypothesis update_total :
  forall V, shape44 V -> exists V' e, update V = Some (V', e) /\ shape44 V'.

Lemma convergence_loop_total (n : nat) (V0 : table A) :
  shape44 V0 ->
  exists V k, convergence_loop A update tol n V0 = Some (V, k) /\ shape44 V.
Proof.
  revert V0; induction n as [|n IH]; intros V0 H0; simpl.
  - now exists V0, O.
  - destruct (update_total V0 H0) as (V1 & e1 & -> & H1); simpl.
    destruct (s_ltb A e1 tol).
    + now exists V1, 1%nat.
    + destruct (IH V1 H1) as (V & k & -> & HV); simpl.
      now exists V, (Datatypes.S k).
Qed.

End Loop.

Lemma update_values_total (A : Numeric) (V : table A) :
  shape44 V ->
  exists V' e, update_values A V = Some (V', e) /\ shape44 V'.
Proof.
  intros H.
  destruct (update_values_closed_form A V H) as (err & _ & Hupd).
  eauto using shape44_tabulate.
Qed.

Lemma update_values_det_total (A : Numeric) (P : policy_grid) (V : table A) :
  shape44 P -> shape44 V ->
  exists V' e, update_values_det A P V = Some (V', e) /\ shape44 V'.
Proof.
  intros HP H.
  destruct (update_values_det_closed_form A P V HP H) as (err & _ & Hupd).
  eauto using shape44_tabulate.
Qed.

Lemma shape44_initial_values (A : Numeric) : shape44 (initial_values A).
Proof.
  split; [reflexivity | repeat constructor].
Qed.

Lemma vectorize_improved_policy_total (A : Numeric) (V : table A) :
  shape44 V ->
  exists P, vectorize_improved_policy A V = Some P /\ shape44 P.
Proof.
  intros H; name_entries V H.
  eexists; split; [reflexivity | ].
  split; [reflexivity | repeat constructor].
Qed.

Lemma new_policy_total (A : Numeric) :
  exists P, new_policy A = Some P /\ shape44 P.
Proof.
  unfold new_policy, evaluation.
  destruct (convergence_loop_total A (update_values A) (tol_evaluation A)
              (update_values_total A) n_iter (initial_values A)
              (shape44_initial_values A)) as (V & k & -> & HV).
  simpl. now apply vectorize_improved_policy_total.
Qed.

(** The tolerances: the literals are the rationals 1/100 and 1/1000 in
    exact arithmetic and the binary64 numbers nearest to them in numpy
    arithmetic. *)
Lemma tolerance_literals :
  tol_evaluation exact = (1 # 100)%Q /\
  tol_deterministic exact = (1 # 1000)%Q /\
  (Qabs (Float.to_Q (tol_evaluation numpy) - (1 # 100)) < 1 # 2 ^ 60)%Q /\
  (Qabs (Float.to_Q (tol_deterministic numpy) - (1 # 1000)) < 1 # 2 ^ 63)%Q.
Proof.
  repeat split.
Qed.

(** C4: in every arithmetic both evaluation cells run to completion
    without raising.  Each starts from the all-zero table with the cap
    [n_iter = 100], performs [k <= 100] sweeps and leaves the table of
    the last sweep in [values]; no sweep before the last reported an
    [err] below the tolerance ([0.01] for the uniform policy, [0.001] for
    the deterministic one), and the loop stops before the cap only on a
    sweep whose [err] is below it.  So when no [err] falls below the
    tolerance, [k = 100] and the result is the table after the hundredth
    sweep, whatever its [err]. *)
Theorem convergence_loops_stop_as_specified (A : Numeric) :
  n_iter = 100%nat /\
  (exists V k,
     evaluation A = Some (V, k) /\
     loop_outcome A (update_values A) (tol_evaluation A) 100
       (initial_values A) V k) /\
  (exists P V k,
     new_policy A = Some P /\
     deterministic_evaluation A = Some (V, k) /\
     loop_outcome A (update_values_det A P) (tol_deterministic A) 100
       (initial_values A) V k).
Proof.
  split; [reflexivity | split].
  - destruct (convergence_loop_total A (update_values A) (tol_evaluation A)
                (update_values_total A) n_iter (initial_values A)
                (shape44_initial_values A)) as (V & k & Hloop & _).
    exists V, k. split; [exact Hloop | ].
    now apply convergence_loop_outcome.
  - destruct (new_policy_total A) as (P & HP & HshP).
    destruct (convergence_loop_total A (update_values_det A P)
                (tol_deterministic A) (fun V => update_values_det_total A P V HshP)
                n_iter (initial_values A) (shape44_initial_values A))
      as (V & k & Hloop & _).
    exists P, V, k. split; [exact HP | ].
    split; [unfold deterministic_evaluation; now rewrite HP | ].
    now apply convergence_loop_outcome.
Qed.

(** The cap is what stops the loop when the sweeps do not settle: under
    the policy that always moves north the top row loses 1 per sweep, each
    of the hundred sweeps reports [err = 1], and the loop yields the table
    of the hundredth sweep, whose [err] is not below the tolerance. *)
Lemma iteration_cap_reached_without_error :
  both (fun A =>
    exists V,
      convergence_loop A (update_values_det A all_north)
        (tol_deterministic A) n_iter (initial_values A) = Some (V, 100%nat) /\
      sweeps A (update_values_det A all_north) 100 (initial_values A)
      = Some V /\
      err_after A (update_values_det A all_north) 99 (initial_values A)
      = Some (of_int A 1) /\
      s_ltb A (of_int A 1) (tol_deterministic A) = false).
Proof.
  split; eexists;
    (split; [vm_compute; reflexivity | ]);
    (split; [vm_compute; reflexivity | ]);
    (split; [vm_compute; reflexivity | reflexivity]).
Qed.

(** ** Policy improvement *)

Lemma map_opt_some {X Y : Type} (f : X -> option Y) (g : X -> Y)
    (l : list X) :
  (forall x, In x l -> f x = Some (g x)) -> map_opt f l = Some (map g l).
Proof.
  induction l as [|x l IH]; intros H; simpl; [reflexivity | ].
  rewrite (H x) by now left. simpl.
  rewrite IH by (intros; apply H; now right). reflexivity.
Qed.

Lemma improved_policy_closed_form (A : Numeric) (V : table A) (s : Z) :
  shape44 V -> is_state s ->
  improved_policy A V s
  = (av <- max_by A snd (map (fun a => (a, lookahead A V s a)) actions) ;;
     Some (fst av)).
Proof.
  intros HV Hs. unfold improved_policy.
  rewrite (map_opt_some _ (fun a => (a, lookahead A V s a))); [reflexivity | ].
  intros a _.
  change (State (fst (divmod s 4)) (snd (divmod s 4)))
    with (State (fst (position s)) (snd (position s))).
  rewrite State_position. cbv zeta.
  assert (Ht : is_state (take_action s a))
    by now apply take_action_is_state.
  pose proof (getitem_at_state (e_zero A) V _ HV Ht) as Hg.
  destruct (position (take_action s a)) as [row col]; simpl in Hg.
  now rewrite Hg.
Qed.

(** [max] with a key, in exact arithmetic: the result splits the list
    into items with strictly smaller keys before it and items with keys
    no greater after it. *)
Lemma exact_max_by_first {X : Type} (key : X -> Q) (l pre mid : list X)
    (x : X) :
  (forall y, In y pre -> (key y < key x)%Q) ->
  (forall y, In y mid -> (key y <= key x)%Q) ->
  let m := fold_left
             (fun best item => if Qltb (key best) (key item) then item else best)
             l x in
  exists pre' post',
    pre ++ x :: mid ++ l = pre' ++ m :: post' /\
    (forall y, In y pre' -> (key y < key m)%Q) /\
    (forall y, In y post' -> (key y <= key m)%Q).
Proof.
  revert pre mid x; induction l as [|z l IH]; intros pre mid x Hpre Hmid;
    cbn [fold_left].
  - exists pre, mid. now rewrite app_nil_r.
  - destruct (Qltb (key x) (key z)) eqn:E.
    + apply Qltb_lt in E.
      destruct (IH (pre ++ x :: mid) [] z) as (pre' & post' & Heq & H1 & H2).
      * intros y Hy. apply in_app_or in Hy. destruct Hy as [Hy | [<- | Hy]].
        -- apply Qlt_trans with (key x); auto.
        -- exact E.
        -- apply Qle_lt_trans with (key x); auto.
      * intros y [].
      * exists pre', post'. split; [ | now split].
        rewrite <- Heq. rewrite <- app_assoc. reflexivity.
    + apply Qltb_ge in E.
      destruct (IH pre (mid ++ [z]) x) as (pre' & post' & Heq & H1 & H2).
      * exact Hpre.
      * intros y Hy. apply in_app_or in Hy. destruct Hy as [Hy | [<- | []]]; auto.
      * exists pre', post'. split; [ | now split].
        rewrite <- Heq. rewrite <- app_assoc. reflexivity.
Qed.

Lemma exact_first_argmax (V : table exact) (s : Z) :
  shape44 V -> is_state s ->
  exists a before after,
    improved_policy exact V s = Some a /\
    actions = before ++ a :: after /\
    (forall a', In a' before ->
       (lookahead exact V s a' < lookahead exact V s a)%Q) /\
    (forall a', In a' after ->
       (lookahead exact V s a' <= lookahead exact V s a)%Q).
Proof.
  intros HV Hs.
  rewrite (improved_policy_closed_form exact V s HV Hs).
  set (q := map (fun a => (a, lookahead exact V s a)) actions).
  destruct (exact_max_by_first (@snd Action.t Q) (tl q) [] [] (hd (Action.N, 0%Q) q))
    as (pre & post & Heq & Hlt & Hle); try (intros y []).
  change ([] ++ hd (Action.N, 0%Q) q :: [] ++ tl q) with q in Heq.
  change (max_by exact snd q)
    with (Some (fold_left
                  (fun best item =>
                     if Qltb (snd best) (snd item) then item else best)
                  (tl q) (hd (Action.N, 0%Q) q))).
  revert Heq Hlt Hle.
  generalize (fold_left
                (fun best item : Action.t * Q =>
                   if Qltb (snd best) (snd item) then item else best)
                (tl q) (hd (Action.N, 0%Q) q)).
  intros m Heq Hlt Hle. cbn [bind].
  assert (Hkey : forall p : Action.t * Q,
             In p q -> snd p = lookahead exact V s (fst p)).
  { intros p Hp. apply in_map_iff in Hp. now destruct Hp as (a & <- & _). }
  assert (Hm : snd m = lookahead exact V s (fst m)).
  { apply Hkey. rewrite Heq. apply in_or_app; right; now left. }
  exists (fst m), (map fst pre), (map fst post). split; [reflexivity | ].
  split.
  - transitivity (map fst q); [unfold q; rewrite map_map; symmetry; apply map_id | ].
    rewrite Heq, map_app. reflexivity.
  - split; intros a' Ha'; apply in_map_iff in Ha';
      destruct Ha' as (p & <- & Hp); rewrite <- Hm, <- (Hkey p).
    + now apply Hlt.
    + rewrite Heq. apply in_or_app; now left.
    + now apply Hle.
    + rewrite Heq. apply in_or_app; right; now right.
Qed.
(** C5: for every 4x4 table [V] of rationals and every state [s],
    [improved_policy] returns an action [a] of the [actions] list whose
    lookahead value [V[next(s, a)]] is at least that of every action, and
    strictly greater than that of every action listed before [a]: the
    first maximiser in the order of [actions], with no randomness. *)
Theorem improved_policy_first_argmax (V : table exact) (s : Z) :
  shape44 V -> is_state s ->
  exists a before after,
    improved_policy exact V s = Some a /\
    actions = before ++ a :: after /\
    (forall a', In a' before ->
       (lookahead exact V s a' < lookahead exact V s a)%Q) /\
    (forall a', In a' after ->
       (lookahead exact V s a' <= lookahead exact V s a)%Q).
Proof.
  exact (exact_first_argmax V s).
Qed.

Lemma improved_policy_first_argmax_witness :
  shape44 (initial_values exact) /\ is_state 6 /\
  exists a before after,
    improved_policy exact (initial_values exact) 6 = Some a /\
    actions = before ++ a :: after /\
    (forall a', In a' before ->
       (lookahead exact (initial_values exact) 6 a'
        < lookahead exact (initial_values exact) 6 a)%Q) /\
    (forall a', In a' after ->
       (lookahead exact (initial_values exact) 6 a'
        <= lookahead exact (initial_values exact) 6 a)%Q).
Proof.
  assert (H : shape44 (initial_values exact))
    by (split; [reflexivity | repeat constructor]).
  assert (H6 : is_state 6) by (unfold is_state; lia).
  split; [exact H | split; [exact H6 | ]].
  exact (improved_policy_first_argmax (initial_values exact) 6 H H6).
Defined.


(** ** The notebook's run *)

(** The numpy arithmetic reproduces what the notebook displays: the
    first loop cell stops after 89 sweeps (the last table printed is that
    of [i = 80]) with the sixteen [float32] values shown for [values], and
    [new_policy] is the displayed grid. *)
Lemma displayed_values_reproduced :
  evaluation numpy = Some (map (map of_millionths) displayed_values, 89%nat).
Proof.
  vm_compute. reflexivity.
Qed.

Lemma displayed_policy_reproduced : new_policy numpy = Some displayed_policy.
Proof.
  vm_compute. reflexivity.
Qed.

(** In exact arithmetic the loop also stops after 89 sweeps, and the
    greedy policy differs from the displayed one at state 10 only, where
    south and east tie exactly. *)
Lemma exact_new_policy :
  option_map snd (evaluation exact) = Some 89%nat /\
  new_policy exact
  = Some [[Action.N; Action.W; Action.W; Action.S];
          [Action.N; Action.N; Action.S; Action.S];
          [Action.N; Action.N; Action.S; Action.S];
          [Action.N; Action.E; Action.E; Action.N]].
Proof.
  split; vm_compute; reflexivity.
Qed.

Lemma int_entry_exact (z : Z) : int_entry exact z = inject_Z z.
Proof.
  reflexivity.
Qed.

Lemma int_entry_numpy :
  int_entry numpy 0 = S754_zero false /\
  forall z, In z [-1; -2; -3] ->
    Float.finite (int_entry numpy z) = true /\
    (Float.to_Q (int_entry numpy z) == inject_Z z)%Q.
Proof.
  split; [reflexivity | ].
  intros z [<- | [<- | [<- | []]]]; split; reflexivity || now vm_compute.
Qed.

(** C6: one sweep of the uniform-policy [update_values] (gamma = 1) on
    the all-zero table gives, in exact and in numpy arithmetic alike, a
    table holding exactly 0 at the two terminal states 0 and 15 and
    exactly -1 at each of the other fourteen states. *)
Theorem first_sweep_from_zero :
  both (fun A =>
    exists V err,
      update_values A (initial_values A) = Some (V, err) /\
      forall s, is_state s ->
        getitem V (fst (position s)) (snd (position s))
        = Some (int_entry A (if (s =? 0) || (s =? 15) then 0 else -1))).
Proof.
  split; (do 2 eexists; split; [vm_compute; reflexivity | ]);
    intros s Hs; each_state s Hs; reflexivity.
Qed.

(** ** Diagonal symmetry *)








Lemma all_sweeps_spec (A : Numeric)
    (update : table A -> option (table A * scal A))
    (check : table A -> bool) (n : nat) (V0 : table A) :
  all_sweeps A update check n V0 = true ->
  forall k, (k <= n)%nat ->
    exists V, sweeps A update k V0 = Some V /\ check V = true.
Proof.
  revert V0; induction n as [|n IH]; intros V0 H k Hk;
    cbn [all_sweeps] in H; apply andb_true_iff in H; destruct H as [H0 H].
  - assert (k = O) by lia; subst k. now exists V0.
  - destruct k as [|k]; [now exists V0 | ].
    destruct (update V0) as [r|] eqn:Hupd; [ | discriminate].
    destruct (IH (fst r) H k ltac:(lia)) as (V & Hsw & Hc).
    exists V. rewrite sweeps_shift, Hupd. now split.
Qed.




(** The thirteenth sweep is the first to break the symmetry: positions
    (0,3) and (3,0) then differ in the last bit. *)
Lemma numpy_sweep_13_not_symmetric :
  exists V x y,
    sweeps numpy (update_values numpy) 13 (initial_values numpy) = Some V /\
    getitem V 0 3 = Some x /\ getitem V 3 0 = Some y /\
    Float.same x y = false /\
    (Qabs (Float.to_Q x - Float.to_Q y) == 1 # 1048576)%Q.
Proof.
  do 3 eexists.
  split; [vm_compute; reflexivity | ].
  split; [reflexivity | split; [reflexivity | ]].
  split; reflexivity.
Qed.



(** ** The terminal states under the sweeps *)

Lemma take_action_terminal (s : Z) (a : Action.t) :
  terminal s = true -> take_action s a = s.
Proof.
  unfold terminal, take_action. destruct (position s) as [row col].
  now intros ->.
Qed.


Section Terminal.
Variable A : Numeric.



End Terminal.









Lemma shape44_uniform_value_function :
  shape44 (int_table exact uniform_value_function).
Proof.
  split; [reflexivity | repeat constructor].
Qed.


(** ** Evaluation of the greedy policy *)

Lemma steps_to_goal_table :
  map (map steps_to_goal) grid_world
  = [[0; 1; 2; 3]; [1; 2; 3; 2]; [2; 3; 2; 1]; [3; 2; 1; 0]].
Proof.
  reflexivity.
Qed.

(** C9 as stated fails: under the displayed greedy policy each of the
    first three sweeps from the all-zero table reports [err = 1], so no
    [err] falls below [0.001] within three iterations. *)
Lemma deterministic_loop_not_within_three :
  ~ (exists P j e,
       new_policy numpy = Some P /\ (j < 3)%nat /\
       err_after numpy (update_values_det numpy P) j (initial_values numpy)
         = Some e /\
       s_ltb numpy e (tol_deterministic numpy) = true).
Proof.
  intros (P & j & e & HP & Hj & He & Hlt).
  rewrite displayed_policy_reproduced in HP. injection HP as <-.
  destruct j as [|[|[|j]]]; [ | | | lia];
    vm_compute in He; injection He as <-; vm_compute in Hlt;
    discriminate Hlt.
Qed.

(** C9, amended: in exact and in numpy arithmetic alike, the last loop
    cell, run from the all-zero table under the greedy policy extracted
    from the converged uniform-policy table, performs four sweeps.  The
    first three each report [err = 1]; the table after the third is
    already the final one, the fourth reports [err = 0], below the
    tolerance 0.001, and stops the loop.  The resulting table is
    integer-valued: each state holds the negated number of steps to the
    nearest terminal corner (-1 next to a terminal, -3 on the
    anti-diagonal). *)
Theorem deterministic_evaluation_distances :
  both (fun A =>
    exists P,
      new_policy A = Some P /\
      deterministic_evaluation A
      = Some (tabulate (fun s => int_entry A (- steps_to_goal s)), 4%nat) /\
      sweeps A (update_values_det A P) 3 (initial_values A)
      = Some (tabulate (fun s => int_entry A (- steps_to_goal s))) /\
      (forall j, (j < 3)%nat ->
         err_after A (update_values_det A P) j (initial_values A)
         = Some (of_int A 1)) /\
      err_after A (update_values_det A P) 3 (initial_values A)
      = Some (of_int A 0) /\
      s_ltb A (of_int A 1) (tol_deterministic A) = false /\
      s_ltb A (of_int A 0) (tol_deterministic A) = true).
Proof.
  split.
  - destruct exact_new_policy as [_ HP].
    eexists; split; [exact HP | ].
    split; [vm_compute; reflexivity | ].
    split; [vm_compute; reflexivity | ].
    split; [ | split; [vm_compute; reflexivity | split; reflexivity]].
    intros [|[|[|j]]] Hj; [ | | | lia]; vm_compute; reflexivity.
  - exists displayed_policy; split; [exact displayed_policy_reproduced | ].
    split; [vm_compute; reflexivity | ].
    split; [vm_compute; reflexivity | ].
    split; [ | split; [vm_compute; reflexivity | split; reflexivity]].
    intros [|[|[|j]]] Hj; [ | | | lia]; vm_compute; reflexivity.
Qed.

(** ** Policy improvement at a fixed point *)






(** Even at the optimum the improved policy need not be the policy it
    was improved from: from the table of distances, [improved_policy]
    answers north at state 6, where the displayed policy holds south and
    all four actions tie. *)
Lemma improvement_changes_policy_on_ties :
  both (fun A =>
    exists P',
      vectorize_improved_policy A
        (tabulate (fun s => int_entry A (- steps_to_goal s))) = Some P' /\
      getitem P' 1 2 = Some Action.N /\
      getitem displayed_policy 1 2 = Some Action.S).
Proof.
  split; eexists; (split; [vm_compute; reflexivity | split; reflexivity]).
Qed.




(** * Further properties of the code *)

(** ** States, positions and moves *)

(** X1: [State] and [position] are inverse to each other: every integer
    is rebuilt from its position, and a row and a column in 0..3 are read
    back from the state built from them.  [State] checks no bounds: a
    column of 4 gives the first state of the next row. *)
Theorem State_position_round_trip (s row col : Z) :
  0 <= col < 4 ->
  State (fst (position s)) (snd (position s)) = s /\
  position (State row col) = (row, col) /\
  State 0 4 = State 1 0.
Proof.
  intros Hc. split; [apply State_position | ].
  split; [now apply position_State | reflexivity].
Qed.

Lemma State_position_round_trip_witness :
  0 <= 2 < 4 /\
  State (fst (position 9)) (snd (position 9)) = 9 /\
  position (State 1 2) = (1, 2) /\
  State 0 4 = State 1 0.
Proof.
  split; [lia | ].
  apply (State_position_round_trip 9 1 2). lia.
Defined.

Lemma terminal_iff (s : Z) : terminal s = true <-> s = 0 \/ s = 15.
Proof.
  unfold terminal, pair_eqb, position, divmod; simpl.
  pose proof (Z.div_mod s 4 ltac:(lia)).
  pose proof (Z.mod_pos_bound s 4 ltac:(lia)).
  rewrite orb_true_iff, !andb_true_iff, !Z.eqb_eq. lia.
Qed.

(** X2: the two tests of the code for a terminal state agree on every
    integer: [reward] is 0 exactly where [take_action] finds the position
    (0,0) or (3,3), that is at 0 and 15, and -1 elsewhere; and there every
    action returns the state itself. *)
Theorem reward_zero_iff_absorbing (s : Z) :
  (reward s = 0 \/ reward s = -1) /\
  (reward s = 0 <-> terminal s = true) /\
  (terminal s = true <-> s = 0 \/ s = 15) /\
  (reward s = 0 -> forall a, take_action s a = s).
Proof.
  assert (Hr : reward s = 0 <-> s = 0 \/ s = 15).
  { unfold reward.
    destruct (Z.eqb_spec s 0), (Z.eqb_spec s 15); simpl; lia. }
  split; [unfold reward; destruct ((s =? 0) || (s =? 15)); auto | ].
  split; [rewrite terminal_iff; exact Hr | ].
  split; [apply terminal_iff | ].
  intros H a. apply take_action_terminal, terminal_iff, Hr, H.
Qed.

(** X3: [is_valid_position] accepts exactly the positions of the sixteen
    states: the pairs from which [State] builds a number in 0..15 whose
    position is the pair again. *)
Theorem is_valid_position_iff_state (row col : Z) :
  is_valid_position row col = true <->
  is_state (State row col) /\ position (State row col) = (row, col).
Proof.
  unfold is_valid_position, is_state.
  rewrite !andb_true_iff, !Z.leb_le, !Z.ltb_lt.
  split.
  - intros [Hr Hc]. split; [unfold State; lia | now apply position_State].
  - intros [Hs Hp]. unfold position, divmod, State in *.
    injection Hp as H1 H2.
    pose proof (Z.mod_pos_bound (row * 4 + col) 4 ltac:(lia)). lia.
Qed.

(** X4: from one of the sixteen states a move leaves the state where it
    is exactly when the state is terminal or the position aimed at lies
    outside the grid; a move that changes the state lands on the position
    aimed at, one step away. *)
Theorem take_action_stays_iff (s : Z) (a : Action.t) :
  is_state s ->
  (take_action s a = s <->
   terminal s = true \/
   is_valid_position (fst (candidate s a)) (snd (candidate s a)) = false) /\
  (take_action s a <> s -> position (take_action s a) = candidate s a).
Proof.
  intros H; each_state s H; destruct a; vm_compute;
    (split; [split | ]); intros; try discriminate; try congruence;
    intuition congruence.
Qed.

Lemma take_action_stays_iff_witness :
  is_state 3 /\
  (take_action 3 Action.E = 3 <->
   terminal 3 = true \/
   is_valid_position (fst (candidate 3 Action.E))
                     (snd (candidate 3 Action.E)) = false) /\
  (take_action 3 Action.E <> 3 ->
   position (take_action 3 Action.E) = candidate 3 Action.E).
Proof.
  split; [unfold is_state; lia | ].
  apply (take_action_stays_iff 3 Action.E). unfold is_state; lia.
Defined.

(** X5: a move between two non-terminal states is undone by the opposite
    action, whose direction is the negated one. *)
Theorem take_action_reversible (s : Z) (a : Action.t) :
  is_state s ->
  take_action s a <> s ->
  terminal (take_action s a) = false ->
  take_action (take_action s a) (opposite a) = s /\
  Action.direction (opposite a)
  = (- fst (Action.direction a), - snd (Action.direction a)).
Proof.
  intros H; each_state s H; destruct a; vm_compute; intros;
    try congruence; split; reflexivity.
Qed.

Lemma take_action_reversible_witness :
  is_state 5 /\
  take_action 5 Action.S <> 5 /\
  terminal (take_action 5 Action.S) = false /\
  take_action (take_action 5 Action.S) (opposite Action.S) = 5 /\
  Action.direction (opposite Action.S)
  = (- fst (Action.direction Action.S), - snd (Action.direction Action.S)).
Proof.
  assert (H1 : is_state 5) by (unfold is_state; lia).
  assert (H2 : take_action 5 Action.S <> 5) by (vm_compute; discriminate).
  assert (H3 : terminal (take_action 5 Action.S) = false) by reflexivity.
  split; [exact H1 | split; [exact H2 | split; [exact H3 | ]]].
  exact (take_action_reversible 5 Action.S H1 H2 H3).
Defined.

(** X6: the grid world has the symmetries of its picture.  Mirroring a
    state in the main diagonal, or turning it by 180 degrees, maps states
    to states, keeps the reward, and commutes with [take_action] when the
    action is mirrored or reversed with it. *)
Theorem take_action_symmetries (s : Z) (a : Action.t) :
  is_state s ->
  (is_state (transpose s) /\ reward (transpose s) = reward s /\
   take_action (transpose s) (mirror a) = transpose (take_action s a)) /\
  (is_state (half_turn s) /\ reward (half_turn s) = reward s /\
   take_action (half_turn s) (opposite a) = half_turn (take_action s a)).
Proof.
  intros H; each_state s H; destruct a; vm_compute; intuition congruence.
Qed.

Lemma take_action_symmetries_witness :
  is_state 6 /\
  (is_state (transpose 6) /\ reward (transpose 6) = reward 6 /\
   take_action (transpose 6) (mirror Action.N)
   = transpose (take_action 6 Action.N)) /\
  (is_state (half_turn 6) /\ reward (half_turn 6) = reward 6 /\
   take_action (half_turn 6) (opposite Action.N)
   = half_turn (take_action 6 Action.N)).
Proof.
  split; [unfold is_state; lia | ].
  apply (take_action_symmetries 6 Action.N). unfold is_state; lia.
Defined.

(** ** Distances *)

Lemma steps_to_goal_descent (s : Z) :
  is_state s -> terminal s = false ->
  exists b, steps_to_goal (take_action s b) = steps_to_goal s - 1.
Proof.
  intros H; each_state s H; intros Ht; try discriminate Ht;
    first [ exists Action.N; reflexivity | exists Action.W; reflexivity
          | exists Action.S; reflexivity | exists Action.E; reflexivity ].
Qed.

Lemma steps_to_goal_facts (s : Z) (a : Action.t) :
  is_state s ->
  0 <= steps_to_goal s <= 3 /\
  (steps_to_goal s = 0 <-> terminal s = true) /\
  steps_to_goal s - 1 <= steps_to_goal (take_action s a) /\
  (terminal s = false ->
   exists b, steps_to_goal (take_action s b) = steps_to_goal s - 1).
Proof.
  intros H.
  split; [ | split; [ | split; [ | now apply steps_to_goal_descent]]];
    each_state s H; destruct a; vm_compute;
    try (split; discriminate); try (split; intros; congruence);
    discriminate.
Qed.

Lemma walk_descends (n : nat) (s : Z) :
  is_state s -> steps_to_goal s = Z.of_nat n ->
  exists l, length l = n /\ terminal (walk s l) = true.
Proof.
  revert s; induction n as [|n IH]; intros s Hs Hn.
  - exists []. split; [reflexivity | ].
    apply (steps_to_goal_facts s Action.N Hs). exact Hn.
  - destruct (steps_to_goal_facts s Action.N Hs) as (_ & Hz & _ & Hd).
    destruct (terminal s) eqn:Ht.
    + assert (steps_to_goal s = 0) by now apply Hz. lia.
    + destruct (Hd eq_refl) as (b & Hb).
      destruct (IH (take_action s b) (take_action_is_state s b Hs)
                  ltac:(lia)) as (l & Hl & Hw).
      exists (b :: l). split; [simpl; now rewrite Hl | exact Hw].
Qed.

Lemma walk_at_least (l : list Action.t) (s : Z) :
  is_state s -> terminal (walk s l) = true ->
  steps_to_goal s <= Z.of_nat (length l).
Proof.
  revert s; induction l as [|a l IH]; intros s Hs Hw.
  - simpl in *. apply (steps_to_goal_facts s Action.N Hs) in Hw.
    rewrite Hw. reflexivity.
  - pose proof (IH (take_action s a) (take_action_is_state s a Hs) Hw).
    destruct (steps_to_goal_facts s a Hs) as (_ & _ & Hlip & _).
    cbn [length]. lia.
Qed.

(** X7: [take_action] makes every state reach a terminal corner, and
    [steps_to_goal], at most 3, is the length of a shortest way there:
    some sequence of that many actions ends in a terminal state, and no
    shorter one does. *)
Theorem steps_to_goal_is_distance (s : Z) :
  is_state s ->
  0 <= steps_to_goal s <= 3 /\
  (exists l, Z.of_nat (length l) = steps_to_goal s /\
             terminal (walk s l) = true) /\
  (forall l, terminal (walk s l) = true ->
             steps_to_goal s <= Z.of_nat (length l)).
Proof.
  intros Hs.
  destruct (steps_to_goal_facts s Action.N Hs) as (Hrange & _).
  split; [exact Hrange | split].
  - destruct (walk_descends (Z.to_nat (steps_to_goal s)) s Hs
                ltac:(lia)) as (l & Hl & Hw).
    exists l. split; [lia | exact Hw].
  - intros l. now apply walk_at_least.
Qed.

Lemma steps_to_goal_is_distance_witness :
  is_state 3 /\
  0 <= steps_to_goal 3 <= 3 /\
  (exists l, Z.of_nat (length l) = steps_to_goal 3 /\
             terminal (walk 3 l) = true) /\
  (forall l, terminal (walk 3 l) = true ->
             steps_to_goal 3 <= Z.of_nat (length l)).
Proof.
  split; [unfold is_state; lia | ].
  apply (steps_to_goal_is_distance 3). unfold is_state; lia.
Defined.

(** ** The sweeps as operators on tables of rationals *)

Lemma exact_sweep_entries (V : table exact) :
  shape44 V ->
  exists V' err,
    update_values exact V = Some (V', err) /\ shape44 V' /\
    max_error exact V' V = Some err /\
    forall s, is_state s -> (at_state 0%Q V' s == bellman_sum V s)%Q.
Proof.
  intros H.
  destruct (update_values_closed_form exact V H) as (err & Herr & Hupd).
  exists (tabulate (bellman_cell exact V)), err.
  split; [exact Hupd | ]. split; [apply shape44_tabulate | ].
  split; [exact Herr | ].
  intros s Hs. rewrite at_state_tabulate by exact Hs.
  apply bellman_cell_exact.
Qed.



(** The four old entries a state's new entry is computed from. *)
Lemma bellman_sum_unfold (V : table exact) (s : Z) :
  (bellman_sum V s
   == inject_Z (reward s)
      + (1 # 4) * (at_state 0%Q V (take_action s Action.N)
                   + at_state 0%Q V (take_action s Action.S)
                   + at_state 0%Q V (take_action s Action.W)
                   + at_state 0%Q V (take_action s Action.E)))%Q.
Proof.
  unfold bellman_sum. cbn [actions map fold_right].
  change (inject_Z gamma) with 1%Q. change (elt exact) with Q.
  ring.
Qed.

Lemma bellman_sum_monotone (V W : table exact) (s : Z) :
  is_state s -> below V W -> (bellman_sum V s <= bellman_sum W s)%Q.
Proof.
  intros Hs Hle. rewrite !bellman_sum_unfold.
  pose proof (Hle _ (take_action_is_state s Action.N Hs)).
  pose proof (Hle _ (take_action_is_state s Action.S Hs)).
  pose proof (Hle _ (take_action_is_state s Action.W Hs)).
  pose proof (Hle _ (take_action_is_state s Action.E Hs)).
  change (elt exact) with Q in *. lra.
Qed.




Lemma below_refl (V : table exact) : below V V.
Proof.
  intros s _. apply Qle_refl.
Qed.


(** ** The convergence signal *)










(** ** The tables of the uniform evaluation *)

Lemma uniform_value_function_is_fixed (s : Z) :
  is_state s ->
  (bellman_sum (int_table exact uniform_value_function) s
   == at_state 0%Q (int_table exact uniform_value_function) s)%Q.
Proof.
  intros H; each_state s H; reflexivity.
Qed.

Lemma exact_iterates_invariant (k : nat) :
  exists V,
    sweeps exact (update_values exact) k (initial_values exact) = Some V /\
    shape44 V /\
    below (int_table exact uniform_value_function) V /\
    below V (initial_values exact) /\
    (forall s, is_state s -> (bellman_sum V s <= at_state 0%Q V s)%Q).
Proof.
  induction k as [|k (V & Hsw & HV & Hlow & Hhigh & Hdown)].
  - exists (initial_values exact). split; [reflexivity | ].
    split; [apply shape44_initial_values | ].
    split; [ | split; [apply below_refl | ]];
      intros s Hs; each_state s Hs; vm_compute; discriminate.
  - destruct (exact_sweep_entries V HV) as (V' & e & Hu & HV' & _ & Hent).
    assert (Hstep : below V' V).
    { intros s Hs. rewrite (Hent s Hs). now apply Hdown. }
    exists V'. split; [simpl; rewrite Hsw; simpl; now rewrite Hu | ].
    split; [exact HV' | ].
    split; [ | split].
    + intros s Hs.
      rewrite (Hent s Hs), <- (uniform_value_function_is_fixed s Hs).
      now apply bellman_sum_monotone.
    + intros s Hs.
      apply Qle_trans with (at_state 0%Q V s); [now apply Hstep | ].
      now apply Hhigh.
    + intros s Hs. rewrite (Hent s Hs). now apply bellman_sum_monotone.
Qed.

Lemma numpy_sweeps_declining :
  all_sweeps numpy (update_values numpy) declining 99 (initial_values numpy)
  = true.
Proof.
  vm_compute. reflexivity.
Qed.

(** X12: the tables of the uniform evaluation decline towards the value
    function of the random policy and never pass it.  In exact
    arithmetic, after any number of sweeps from the all-zero table the
    next sweep lowers no entry below [uniform_value_function] (so none
    below -22) and raises none, and every entry is at most 0.  In numpy
    arithmetic the same holds, with the bound -22, for each of the
    hundred sweeps the loop can perform. *)
Theorem uniform_evaluation_declines (k : nat) :
  (exists V V' e,
     sweeps exact (update_values exact) k (initial_values exact) = Some V /\
     update_values exact V = Some (V', e) /\
     forall s, is_state s ->
       (at_state 0 (int_table exact uniform_value_function) s
        <= at_state 0 V' s)%Q /\
       (- (22 # 1) <= at_state 0 V' s)%Q /\
       (at_state 0 V' s <= at_state 0 V s)%Q /\
       (at_state 0 V s <= 0)%Q) /\
  ((k <= 99)%nat ->
   exists V,
     sweeps numpy (update_values numpy) k (initial_values numpy) = Some V /\
     declining V = true).
Proof.
  split.
  - destruct (exact_iterates_invariant k) as (V & Hsw & HV & _ & Hhigh & Hdown).
    destruct (exact_iterates_invariant (Datatypes.S k))
      as (V' & Hsw' & _ & Hlow' & _).
    destruct (exact_sweep_entries V HV) as (V1 & e & Hu & _ & _ & Hent).
    assert (V' = V1).
    { simpl in Hsw'. rewrite Hsw in Hsw'. simpl in Hsw'.
      rewrite Hu in Hsw'. simpl in Hsw'. congruence. }
    subst V1. exists V, V', e.
    split; [exact Hsw | split; [exact Hu | ]].
    intros s Hs.
    assert (H1 := Hlow' s Hs).
    assert (H2 : (- (22 # 1)
                  <= at_state 0 (int_table exact uniform_value_function) s)%Q)
      by (clear - Hs; each_state s Hs; vm_compute; discriminate).
    repeat split.
    + exact H1.
    + eapply Qle_trans; [exact H2 | exact H1].
    + rewrite (Hent s Hs). now apply Hdown.
    + assert (H0 := Hhigh s Hs).
      assert (Hz : (at_state 0 (initial_values exact) s == 0)%Q)
        by (clear - Hs; each_state s Hs; reflexivity).
      now rewrite Hz in H0.
  - intros Hk.
    exact (all_sweeps_spec numpy (update_values numpy) declining 99
             (initial_values numpy) numpy_sweeps_declining k Hk).
Qed.

(** ** What the improved policy achieves *)




Lemma SFltb_irrefl (x : spec_float) : SFltb x x = false.
Proof.
  destruct x as [s| s| |s m e]; try reflexivity.
  - now destruct s.
  - unfold SFltb, SFcompare.
    rewrite Z.compare_refl, Pos.compare_cont_refl. now destruct s.
Qed.

Lemma improved_policy_terminal (A : Numeric) (V : table A) (s : Z) :
  (forall x, e_ltb A x x = false) ->
  shape44 V -> s = 0 \/ s = 15 ->
  improved_policy A V s = Some Action.N.
Proof.
  intros Hirr HV Hs.
  assert (Hst : is_state s) by (unfold is_state; lia).
  rewrite (improved_policy_closed_form A V s HV Hst).
  unfold lookahead. cbn [actions map].
  rewrite !take_action_terminal by now apply terminal_iff.
  cbn [max_by fold_left snd]. rewrite !Hirr. reflexivity.
Qed.

(** X14: at a terminal state [improved_policy] answers [N], the first of
    [actions], whatever the table holds: all four moves lead back to the
    state, so all four lookahead values are one and the same entry.  This
    holds for every 4x4 table of rationals and every 4x4 table of
    [float32] numbers, NaN and infinities included. *)
Theorem improved_policy_at_terminal
    (V : table exact) (W : table numpy) (s : Z) :
  shape44 V -> shape44 W -> s = 0 \/ s = 15 ->
  improved_policy exact V s = Some Action.N /\
  improved_policy numpy W s = Some Action.N.
Proof.
  intros HV HW Hs. split.
  - apply improved_policy_terminal; auto.
    intros x. apply Qltb_ge, Qle_refl.
  - apply improved_policy_terminal; auto.
    exact SFltb_irrefl.
Qed.

Lemma improved_policy_at_terminal_witness :
  shape44 (int_table exact uniform_value_function) /\
  shape44 (int_table numpy uniform_value_function) /\
  (15 = 0 \/ 15 = 15) /\
  improved_policy exact (int_table exact uniform_value_function) 15
  = Some Action.N /\
  improved_policy numpy (int_table numpy uniform_value_function) 15
  = Some Action.N.
Proof.
  assert (H : shape44 (int_table numpy uniform_value_function))
    by (split; [reflexivity | repeat constructor]).
  split; [exact shape44_uniform_value_function | ].
  split; [exact H | ].
  split; [right; reflexivity | ].
  exact (improved_policy_at_terminal _ _ 15
           shape44_uniform_value_function H (or_intror eq_refl)).
Defined.

(** ** The cap of the loop *)

(** X15: a loop that stops before its cap does not depend on the cap:
    when the loop with cap [n] stops after [k < n] sweeps, it returns the
    same table after the same [k] sweeps with any cap [m >= k].  This
    holds for any sweep and tolerance, in any arithmetic. *)
Theorem convergence_loop_cap_irrelevant (A : Numeric)
    (update : table A -> option (table A * scal A)) (tol : scal A)
    (n m : nat) (V0 V : table A) (k : nat) :
  convergence_loop A update tol n V0 = Some (V, k) ->
  (k < n)%nat -> (k <= m)%nat ->
  convergence_loop A update tol m V0 = Some (V, k).
Proof.
  revert m V0 V k; induction n as [|n IH]; intros m V0 V k Hloop Hk Hm;
    [lia | ].
  cbn [convergence_loop] in Hloop.
  destruct (update V0) as [[V1 e1]|] eqn:Hupd; [ | discriminate].
  cbn [bind fst snd] in Hloop.
  destruct (s_ltb A e1 tol) eqn:Hlt.
  - injection Hloop as <- <-.
    destruct m as [|m]; [lia | ].
    cbn [convergence_loop]. rewrite Hupd. cbn [bind fst snd].
    now rewrite Hlt.
  - destruct (convergence_loop A update tol n V1) as [[V' k']|] eqn:Hrec;
      [ | discriminate].
    cbn [bind fst snd] in Hloop. injection Hloop as <- <-.
    destruct m as [|m]; [lia | ].
    cbn [convergence_loop]. rewrite Hupd. cbn [bind fst snd]. rewrite Hlt.
    rewrite (IH m V1 V' k' Hrec) by lia. reflexivity.
Qed.

Lemma deterministic_loop_stops_at_four :
  convergence_loop numpy (update_values_det numpy displayed_policy)
    (tol_deterministic numpy) 100 (initial_values numpy)
  = Some (tabulate (fun s => int_entry numpy (- steps_to_goal s)), 4%nat).
Proof.
  vm_compute. reflexivity.
Qed.

Lemma convergence_loop_cap_irrelevant_witness :
  convergence_loop numpy (update_values_det numpy displayed_policy)
    (tol_deterministic numpy) 100 (initial_values numpy)
  = Some (tabulate (fun s => int_entry numpy (- steps_to_goal s)), 4%nat) /\
  (4 < 100)%nat /\ (4 <= 4)%nat /\
  convergence_loop numpy (update_values_det numpy displayed_policy)
    (tol_deterministic numpy) 4 (initial_values numpy)
  = Some (tabulate (fun s => int_entry numpy (- steps_to_goal s)), 4%nat).
Proof.
  split; [exact deterministic_loop_stops_at_four | ].
  split; [lia | split; [lia | ]].
  apply (convergence_loop_cap_irrelevant numpy _ _ 100 4 _ _ 4
           deterministic_loop_stops_at_four); lia.
Defined.

(** ** Index errors *)

Lemma list_set_length {X : Type} (l : list X) (n : nat) (v : X) :
  length (list_set l n v) = length l.
Proof.
  revert n; induction l as [|x l IH]; intros [|n]; simpl; auto.
Qed.

Lemma list_set_row_lengths {X : Type} (a : array X) (i : nat)
    (r r' : list X) :
  nth_error a i = Some r -> length r' = length r ->
  map (@length X) (list_set a i r') = map (@length X) a.
Proof.
  revert i; induction a as [|x a IH]; intros [|i]; simpl; try discriminate.
  - intros [= ->] ->. reflexivity.
  - intros H1 H2. now rewrite (IH i H1 H2).
Qed.

Lemma setitem_row_lengths {X : Type} (a a' : array X) (row col : Z) (v : X) :
  setitem a row col v = Some a' ->
  map (@length X) a' = map (@length X) a.
Proof.
  unfold setitem.
  destruct (index (length a) row) as [i|]; [ | discriminate]; cbn [bind].
  destruct (nth_error a i) as [r|] eqn:Hr; [ | discriminate]; cbn [bind].
  destruct (index (length r) col) as [j|]; [ | discriminate]; cbn [bind].
  intros [= <-].
  apply (list_set_row_lengths a i r); [exact Hr | apply list_set_length].
Qed.

Lemma getitem_row_lengths {X Y : Type} (a : array X) (b : array Y)
    (row col : Z) :
  map (@length X) a = map (@length Y) b ->
  getitem a row col <> None -> getitem b row col <> None.
Proof.
  intros Hs. unfold getitem.
  assert (Hlen : length a = length b).
  { apply (f_equal (@length nat)) in Hs. now rewrite !length_map in Hs. }
  rewrite <- Hlen.
  destruct (index (length a) row) as [i|]; [ | auto]; cbn [bind].
  destruct (nth_error a i) as [r|] eqn:Hr; [ | auto]; cbn [bind].
  assert (Hb : nth_error (map (@length Y) b) i = Some (length r)).
  { rewrite <- Hs. now apply map_nth_error. }
  rewrite nth_error_map in Hb.
  destruct (nth_error b i) as [r'|]; [ | discriminate]; cbn [bind].
  injection Hb as Hb. rewrite Hb.
  destruct (index (length r) col) as [j|]; [ | auto]; cbn [bind].
  rewrite !nth_error_Some. lia.
Qed.

Lemma zeros_like_row_lengths (A : Numeric) {X : Type} (a : array X) :
  map (@length (elt A)) (zeros_like A a) = map (@length X) a.
Proof.
  unfold zeros_like. rewrite map_map. apply map_ext.
  intros r. apply length_map.
Qed.

Lemma for_each_runs {X St : Type} (I : St -> Prop)
    (body : St -> X -> option St) (l : list X) :
  (forall st x st', I st -> body st x = Some st' -> I st') ->
  forall st st', I st -> for_each l body st = Some st' ->
  I st' /\
  forall x, In x l -> exists st1 st2, I st1 /\ body st1 x = Some st2.
Proof.
  intros Hstep; induction l as [|x l IH]; intros st st' Hst; cbn [for_each].
  - intros [= <-]. split; [exact Hst | intros x []].
  - destruct (body st x) as [st1|] eqn:Hb; [ | discriminate]; cbn [bind].
    intros Hrest.
    destruct (IH st1 st' (Hstep st x st1 Hst Hb) Hrest) as [H1 H2].
    split; [exact H1 | ].
    intros y [<- | Hy]; [now exists st, st1 | now apply H2].
Qed.

Lemma accumulate_reads (A : Numeric) (old values values' : table A)
    (row col : Z) (ap : Action.t * scal A) :
  accumulate A old row col values ap = Some values' ->
  map (@length _) values' = map (@length _) values /\
  getitem values row col <> None /\
  getitem old (fst (position (take_action (State row col) (fst ap))))
              (snd (position (take_action (State row col) (fst ap))))
  <> None.
Proof.
  destruct ap as [a p]. unfold accumulate. cbn [fst].
  destruct (position (take_action (State row col) a)) as [nr nc].
  cbn [fst snd].
  destruct (getitem old nr nc); [ | discriminate]; cbn [bind].
  destruct (getitem values row col); [ | discriminate]; cbn [bind].
  intros H. apply setitem_row_lengths in H.
  repeat split; [exact H | discriminate | discriminate].
Qed.

Lemma assign_reads (A : Numeric) (P : policy_grid) (old values values' : table A)
    (row col : Z) :
  assign A P old row values col = Some values' ->
  map (@length _) values' = map (@length _) values /\
  getitem values row col <> None /\
  getitem P row col <> None.
Proof.
  unfold assign.
  destruct (getitem P row col) as [a|]; [ | discriminate]; cbn [bind].
  destruct (position (take_action (State row col) a)) as [nr nc].
  destruct (getitem old nr nc); [ | discriminate]; cbn [bind].
  destruct (getitem values row col); [ | discriminate]; cbn [bind].
  intros H. apply setitem_row_lengths in H.
  repeat split; [exact H | discriminate | discriminate].
Qed.

Lemma in_range_0_4_intro (i : Z) : 0 <= i < 4 -> In i (range 0 4).
Proof.
  intros H. assert (i = 0 \/ i = 1 \/ i = 2 \/ i = 3) as Hi by lia.
  destruct Hi as [-> | [-> | [-> | ->]]]; cbv; tauto.
Qed.

Lemma update_values_covers (A : Numeric) (V : table A) :
  update_values A V <> None -> covers V.
Proof.
  unfold update_values. intros Hupd row col Hrow Hcol.
  match type of Hupd with
  | bind ?loop _ <> None => destruct loop as [values|] eqn:Hloop
  end; [clear Hupd | now elim Hupd].
  set (I := fun st : table A => map (@length _) st = map (@length _) V).
  assert (Hacc : forall r c st ap st',
            I st -> accumulate A V r c st ap = Some st' -> I st').
  { intros r c st ap st' Hst Hb. unfold I in *.
    apply accumulate_reads in Hb. destruct Hb as [-> _]. exact Hst. }
  assert (Hcols : forall r st c st',
            I st ->
            for_each (combine actions (policy_vector A))
                     (accumulate A V r c) st = Some st' -> I st').
  { intros r st c st' Hst Hb.
    now apply (for_each_runs I _ _ (Hacc r c) st st' Hst Hb). }
  assert (Hrows : forall st r st',
            I st ->
            for_each (range 0 4)
              (fun values c =>
                 for_each (combine actions (policy_vector A))
                          (accumulate A V r c) values) st = Some st' ->
            I st').
  { intros st r st' Hst Hb.
    now apply (for_each_runs I _ _ (Hcols r) st st' Hst Hb). }
  destruct (for_each_runs I _ _ Hrows _ _ (zeros_like_row_lengths A V) Hloop)
    as [_ Hr].
  destruct (Hr row (in_range_0_4_intro row Hrow)) as (st1 & st2 & H1 & Hb1).
  destruct (for_each_runs I _ _ (Hcols row) _ _ H1 Hb1) as [_ Hc].
  destruct (Hc col (in_range_0_4_intro col Hcol)) as (st3 & st4 & H3 & Hb3).
  destruct (for_each_runs I _ _ (Hacc row col) _ _ H3 Hb3) as [_ Ha].
  destruct (Ha (Action.N, s_div A (of_int A 1) (of_int A 4)))
    as (st5 & st6 & H5 & Hb5); [left; reflexivity | ].
  apply accumulate_reads in Hb5. destruct Hb5 as (_ & Hcur & _).
  exact (getitem_row_lengths st5 V row col H5 Hcur).
Qed.

Lemma update_values_det_covers (A : Numeric) (P : policy_grid) (V : table A) :
  update_values_det A P V <> None -> covers P /\ covers V.
Proof.
  unfold update_values_det. intros Hupd.
  match type of Hupd with
  | bind ?loop _ <> None => destruct loop as [values|] eqn:Hloop
  end; [clear Hupd | now elim Hupd].
  set (I := fun st : table A => map (@length _) st = map (@length _) V).
  assert (Hasg : forall r st c st',
            I st -> assign A P V r st c = Some st' -> I st').
  { intros r st c st' Hst Hb. unfold I in *.
    apply assign_reads in Hb. destruct Hb as [-> _]. exact Hst. }
  assert (Hrows : forall st r st',
            I st ->
            for_each (range 0 4) (assign A P V r) st = Some st' -> I st').
  { intros st r st' Hst Hb.
    now apply (for_each_runs I _ _ (Hasg r) st st' Hst Hb). }
  destruct (for_each_runs I _ _ Hrows _ _ (zeros_like_row_lengths A V) Hloop)
    as [_ Hr].
  assert (Hboth : forall row col, 0 <= row < 4 -> 0 <= col < 4 ->
            getitem P row col <> None /\ getitem V row col <> None).
  { intros row col Hrow Hcol.
    destruct (Hr row (in_range_0_4_intro row Hrow)) as (st1 & st2 & H1 & Hb1).
    destruct (for_each_runs I _ _ (Hasg row) _ _ H1 Hb1) as [_ Hc].
    destruct (Hc col (in_range_0_4_intro col Hcol)) as (st3 & st4 & H3 & Hb3).
    apply assign_reads in Hb3. destruct Hb3 as (_ & Hcur & HP).
    split; [exact HP | exact (getitem_row_lengths st3 V row col H3 Hcur)]. }
  split; intros row col Hrow Hcol; now apply (Hboth row col).
Qed.

Lemma map_opt_in {X Y : Type} (f : X -> option Y) (l : list X) (x : X) :
  map_opt f l <> None -> In x l -> f x <> None.
Proof.
  induction l as [|y l IH]; cbn [map_opt In]; [tauto | ].
  intros H [<- | Hx].
  - destruct (f y); [discriminate | now elim H].
  - apply IH; [ | exact Hx].
    destruct (f y); [ | now elim H]. cbn [bind] in H.
    destruct (map_opt f l); [discriminate | exact H].
Qed.

Lemma improved_policy_reads (A : Numeric) (V : table A) (s : Z)
    (a : Action.t) (i j : Z) :
  improved_policy A V s <> None ->
  position (take_action (State (fst (divmod s 4)) (snd (divmod s 4))) a)
  = (i, j) ->
  getitem V i j <> None.
Proof.
  unfold improved_policy. intros H Hpos.
  match type of H with
  | bind (map_opt ?f _) _ <> None =>
      assert (Hf : f a <> None);
      [apply (map_opt_in f actions a);
       [destruct (map_opt f actions); [discriminate | now elim H]
       | destruct a; cbv; tauto]
      | ]
  end.
  cbv beta zeta in Hf. rewrite Hpos in Hf.
  destruct (getitem V i j); [discriminate | now elim Hf].
Qed.

Lemma vectorize_improved_policy_covers (A : Numeric) (V : table A) :
  vectorize_improved_policy A V <> None -> covers V.
Proof.
  unfold vectorize_improved_policy. intros H.
  assert (Hs : forall s, is_state s -> improved_policy A V s <> None).
  { intros s Hs.
    assert (Hin : exists r, In r grid_world /\ In s r).
    { exists (range (4 * (s / 4)) (4 * (s / 4) + 4)).
      each_state s Hs; cbv; tauto. }
    destruct Hin as (r & Hr & Hsr).
    apply (map_opt_in _ r s); [ | exact Hsr].
    now apply (map_opt_in _ grid_world r). }
  intros row col Hrow Hcol.
  assert (row = 0 \/ row = 1 \/ row = 2 \/ row = 3) as Hr by lia.
  assert (col = 0 \/ col = 1 \/ col = 2 \/ col = 3) as Hc by lia.
  assert (Hst : is_state (4 * row + col)) by (unfold is_state; lia).
  assert (Hup : row = 0 -> is_state (4 * row + col + 4))
    by (unfold is_state; lia).
  assert (Hdown : row = 3 -> is_state (4 * row + col - 4))
    by (unfold is_state; lia).
  assert (Hmid : 0 < row < 3 -> is_state (4 * row + col - 4))
    by (unfold is_state; lia).
  destruct Hr as [-> | [-> | [-> | ->]]];
    destruct Hc as [-> | [-> | [-> | ->]]];
    first
      [ apply (improved_policy_reads A V _ Action.N _ _ (Hs _ Hst));
        reflexivity
      | apply (improved_policy_reads A V _ Action.S _ _ (Hs _ Hst));
        reflexivity
      | apply (improved_policy_reads A V _ Action.W _ _ (Hs _ Hst));
        reflexivity
      | apply (improved_policy_reads A V _ Action.E _ _ (Hs _ Hst));
        reflexivity
      | apply (improved_policy_reads A V _ Action.S _ _
                 (Hs _ (Hmid ltac:(lia))));
        reflexivity ].
Qed.

(** X16: on a 4x4 table no index of the notebook is out of range,
    whatever the arithmetic and whatever the entries (NaN and infinities
    included): both sweeps return a table of shape (4, 4) with an error,
    and the vectorised [improved_policy] returns a 4x4 grid of actions. *)
Theorem sweeps_never_raise_on_grid (A : Numeric)
    (P : policy_grid) (V : table A) :
  shape44 P -> shape44 V ->
  (exists V' e, update_values A V = Some (V', e) /\ shape44 V') /\
  (exists V' e, update_values_det A P V = Some (V', e) /\ shape44 V') /\
  (exists P', vectorize_improved_policy A V = Some P' /\ shape44 P').
Proof.
  intros HP HV.
  split; [now apply update_values_total | ].
  split; [now apply update_values_det_total | ].
  now apply vectorize_improved_policy_total.
Qed.

Lemma sweeps_never_raise_on_grid_witness :
  shape44 all_north /\ shape44 (initial_values numpy) /\
  (exists V' e,
     update_values numpy (initial_values numpy) = Some (V', e) /\
     shape44 V') /\
  (exists V' e,
     update_values_det numpy all_north (initial_values numpy)
     = Some (V', e) /\ shape44 V') /\
  (exists P',
     vectorize_improved_policy numpy (initial_values numpy) = Some P' /\
     shape44 P').
Proof.
  assert (H : shape44 all_north) by apply shape44_tabulate.
  split; [exact H | ].
  split; [apply shape44_initial_values | ].
  exact (sweeps_never_raise_on_grid numpy all_north (initial_values numpy)
           H (shape44_initial_values numpy)).
Defined.

(** X17: a table or policy grid that lacks one of the sixteen positions
    makes the code raise: the deterministic sweep returns only when both
    the policy grid and the table have an entry at every [[row, col]]
    with [0 <= row, col < 4], and the uniform sweep and the vectorised
    [improved_policy] return only when the table has.  So on a table that
    does not cover the grid all three raise [IndexError], in any
    arithmetic. *)
Theorem sweeps_raise_off_grid (A : Numeric) (P : policy_grid) (V : table A) :
  ~ (covers P /\ covers V) ->
  update_values_det A P V = None /\
  (~ covers V ->
   update_values A V = None /\ vectorize_improved_policy A V = None).
Proof.
  intros Hno. split; [ | intros HV; split].
  - destruct (update_values_det A P V) eqn:H; [ | reflexivity].
    elim Hno. apply update_values_det_covers. rewrite H. discriminate.
  - destruct (update_values A V) eqn:H; [ | reflexivity].
    elim HV. apply update_values_covers. rewrite H. discriminate.
  - destruct (vectorize_improved_policy A V) eqn:H; [ | reflexivity].
    elim HV. apply vectorize_improved_policy_covers. rewrite H. discriminate.
Qed.

Lemma sweeps_raise_off_grid_witness :
  ~ (covers all_north /\ covers (@nil (list (elt numpy)))) /\
  update_values_det numpy all_north [] = None /\
  (~ covers (@nil (list (elt numpy))) ->
   update_values numpy [] = None /\
   vectorize_improved_policy numpy [] = None).
Proof.
  assert (H : ~ (covers all_north /\ covers (@nil (list (elt numpy))))).
  { intros [_ H]. apply (H 0 0); [lia | lia | reflexivity]. }
  split; [exact H | ].
  exact (sweeps_raise_off_grid numpy all_north [] H).
Defined.

(** ** Symmetries of the uniform sweep *)






(** ** The policy the notebook derives *)

Lemma follow_is_walk (P : policy_grid) (n : nat) (s : Z) :
  exists l, length l = n /\ walk s l = follow P s n.
Proof.
  revert s; induction n as [|n IH]; intros s.
  - now exists [].
  - destruct (IH (take_action s (at_state Action.N P s))) as (l & Hl & Hw).
    exists (at_state Action.N P s :: l). split; [simpl; now rewrite Hl | ].
    exact Hw.
Qed.

Lemma follow_at_least (P : policy_grid) (s : Z) (n : nat) :
  is_state s -> terminal (follow P s n) = true ->
  steps_to_goal s <= Z.of_nat n.
Proof.
  intros Hs Ht. destruct (follow_is_walk P n s) as (l & <- & Hw).
  apply walk_at_least; [exact Hs | now rewrite Hw].
Qed.

Lemma follow_new_policy (P : policy_grid) (s : Z) :
  P = displayed_policy \/
  P = [[Action.N; Action.W; Action.W; Action.S];
       [Action.N; Action.N; Action.S; Action.S];
       [Action.N; Action.N; Action.S; Action.S];
       [Action.N; Action.E; Action.E; Action.N]] ->
  is_state s ->
  terminal (follow P s (Z.to_nat (steps_to_goal s))) = true.
Proof.
  intros [-> | ->] Hs; each_state s Hs; reflexivity.
Qed.

(** X19: the policy the notebook derives from the evaluated uniform
    policy is optimal.  In both arithmetics [new_policy] is defined, and
    following it from any state reaches a terminal corner after exactly
    [steps_to_goal] moves, the least number any sequence of actions
    needs; it reaches none earlier. *)
Theorem new_policy_is_shortest_path :
  both (fun A =>
    exists P,
      new_policy A = Some P /\
      forall s, is_state s ->
        terminal (follow P s (Z.to_nat (steps_to_goal s))) = true /\
        forall n, terminal (follow P s n) = true ->
                  steps_to_goal s <= Z.of_nat n).
Proof.
  split.
  - destruct exact_new_policy as [_ H]. eexists. split; [exact H | ].
    intros s Hs. split.
    + apply follow_new_policy; [now right | exact Hs].
    + intros n. now apply follow_at_least.
  - exists displayed_policy. split; [exact displayed_policy_reproduced | ].
    intros s Hs. split.
    + apply follow_new_policy; [now left | exact Hs].
    + intros n. now apply follow_at_least.
Qed.

(** ** What the loop cells print *)

Lemma map_opt_map {X Y Z' : Type} (f : Y -> option Z') (g : X -> Y)
    (l : list X) :
  map_opt f (map g l) = map_opt (fun x => f (g x)) l.
Proof.
  induction l as [|x l IH]; simpl; [reflexivity | now rewrite IH].
Qed.

Lemma map_opt_ext {X Y : Type} (f g : X -> option Y) (l : list X) :
  (forall x, f x = g x) -> map_opt f l = map_opt g l.
Proof.
  intros H; induction l as [|x l IH]; simpl; [reflexivity | ].
  now rewrite H, IH.
Qed.

Lemma filter_map_shift {X Y : Type} (f : Y -> bool) (g : X -> Y)
    (l : list X) :
  filter f (map g l) = map g (filter (fun x => f (g x)) l).
Proof.
  induction l as [|x l IH]; simpl; [reflexivity | ].
  destruct (f (g x)); simpl; now rewrite IH.
Qed.

Lemma printing_loop_from (A : Numeric) {X : Type} (show : table A -> X)
    (update : table A -> option (table A * scal A)) (tol : scal A)
    (n : nat) (i : Z) (V0 V : table A) (k : nat) :
  convergence_loop A update tol n V0 = Some (V, k) ->
  printing_loop A show update tol n i V0
  = map_opt (fun j => Vj <- sweeps A update (Datatypes.S j) V0 ;;
                      Some (i + Z.of_nat j, show Vj))
            (filter (fun j => prints (i + Z.of_nat j)) (seq 0 k)).
Proof.
  revert i V0 V k; induction n as [|n IH]; intros i V0 V k Hloop.
  - cbn [convergence_loop] in Hloop. injection Hloop as <- <-. reflexivity.
  - cbn [convergence_loop] in Hloop. cbn [printing_loop].
    destruct (update V0) as [[V1 e1]|] eqn:Hupd; [ | discriminate].
    cbn [bind fst snd] in *.
    destruct (s_ltb A e1 tol) eqn:Hlt.
    + injection Hloop as <- <-. cbn [seq filter].
      rewrite Z.add_0_r. destruct (prints i); [ | reflexivity].
      cbn [map_opt sweeps bind]. rewrite Hupd. cbn [bind fst].
      now rewrite Z.add_0_r.
    + destruct (convergence_loop A update tol n V1) as [[V' k']|] eqn:Hrec;
        [ | discriminate].
      cbn [bind fst snd] in Hloop. injection Hloop as <- <-.
      rewrite (IH (i + 1) V1 V' k' Hrec).
      assert (Hrest :
                map_opt (fun j =>
                           Vj <- sweeps A update (Datatypes.S j) V0 ;;
                           Some (i + Z.of_nat j, show Vj))
                        (filter (fun j => prints (i + Z.of_nat j))
                                (map Datatypes.S (seq 0 k')))
                = map_opt (fun j =>
                             Vj <- sweeps A update (Datatypes.S j) V1 ;;
                             Some (i + 1 + Z.of_nat j, show Vj))
                          (filter (fun j => prints (i + 1 + Z.of_nat j))
                                  (seq 0 k'))).
      { rewrite filter_map_shift, map_opt_map.
        replace (filter (fun x => prints (i + Z.of_nat (Datatypes.S x)))
                        (seq 0 k'))
          with (filter (fun j => prints (i + 1 + Z.of_nat j)) (seq 0 k'))
          by (apply filter_ext; intros j; f_equal; lia).
        apply map_opt_ext. intros j.
        rewrite (sweeps_shift A update (Datatypes.S j) V0), Hupd.
        cbn [bind fst].
        replace (i + Z.of_nat (Datatypes.S j)) with (i + 1 + Z.of_nat j)
          by lia.
        reflexivity. }
      assert (Hhead :
                (Vj <- sweeps A update 1 V0 ;; Some (i + 0, show Vj))
                = Some (i, show V1)).
      { cbn [sweeps bind]. rewrite Hupd. cbn [bind fst].
        now rewrite Z.add_0_r. }
      cbn [seq]. rewrite <- seq_shift. cbn [filter].
      change (Z.of_nat 0) with 0. rewrite Z.add_0_r.
      destruct (prints i).
      * cbn [map_opt]. change (Z.of_nat 0) with 0.
        rewrite Hhead, Hrest. clear Hrest.
        destruct (map_opt _ _); reflexivity.
      * rewrite Hrest. clear Hrest. destruct (map_opt _ _); reflexivity.
Qed.

(** X20: what a loop cell prints.  When the loop stops after [k] sweeps,
    the cell has printed, in increasing order, exactly the indices
    [i < k] with [i < 3] or [i] a multiple of 10, each followed by the
    table after sweep [i + 1]: the table is printed after the update and
    before the test that leaves the loop, so the table of the last sweep
    is printed when its index is due.  This holds for any sweep,
    tolerance, cap and way of showing a table. *)
Theorem printing_loop_schedule (A : Numeric) {X : Type}
    (show : table A -> X)
    (update : table A -> option (table A * scal A)) (tol : scal A)
    (n : nat) (V0 V : table A) (k : nat) :
  convergence_loop A update tol n V0 = Some (V, k) ->
  printing_loop A show update tol n 0 V0
  = map_opt (fun j => Vj <- sweeps A update (Datatypes.S j) V0 ;;
                      Some (Z.of_nat j, show Vj))
            (filter (fun j => prints (Z.of_nat j)) (seq 0 k)).
Proof.
  intros Hloop.
  exact (printing_loop_from A show update tol n 0 V0 V k Hloop).
Qed.

Lemma printing_loop_schedule_witness :
  convergence_loop numpy (update_values_det numpy displayed_policy)
    (tol_deterministic numpy) 100 (initial_values numpy)
  = Some (tabulate (fun s => int_entry numpy (- steps_to_goal s)), 4%nat) /\
  printing_loop numpy (map (map (np_round 1)))
    (update_values_det numpy displayed_policy)
    (tol_deterministic numpy) 100 0 (initial_values numpy)
  = map_opt (fun j =>
               Vj <- sweeps numpy (update_values_det numpy displayed_policy)
                       (Datatypes.S j) (initial_values numpy) ;;
               Some (Z.of_nat j, map (map (np_round 1)) Vj))
            (filter (fun j => prints (Z.of_nat j)) (seq 0 4)).
Proof.
  split; [exact deterministic_loop_stops_at_four | ].
  exact (printing_loop_schedule numpy (map (map (np_round 1))) _ _ 100 _ _ 4
           deterministic_loop_stops_at_four).
Defined.

(** X21: the model prints what the notebook recorded.  In numpy
    arithmetic the first loop cell prints the indices 0, 1, 2, 10, 20,
    ..., 80 and the second the indices 0, 1, 2, and every table printed,
    rounded by [np.round(values, 1)], is entry for entry the [float32]
    table whose decimals stand in the notebook's output. *)
Theorem printed_output_reproduced :
  printing_loop numpy (map (map (np_round 1))) (update_values numpy)
    (tol_evaluation numpy) n_iter 0 (initial_values numpy)
  = Some (as_printed printed_evaluation) /\
  exists P,
    new_policy numpy = Some P /\
    printing_loop numpy (map (map (np_round 1))) (update_values_det numpy P)
      (tol_deterministic numpy) n_iter 0 (initial_values numpy)
    = Some (as_printed printed_deterministic).
Proof.
  split; [vm_compute; reflexivity | ].
  exists displayed_policy. split; [exact displayed_policy_reproduced | ].
  vm_compute; reflexivity.
Qed.
